(** * schwabpy-api: token lifecycle, stream session and market gate

    A shallow embedding of the parts of [schwabpy_api] that the
    specification's testable properties talk about:

    - [schwab/utils.py]: [parse_option_string], [check_mkt_hours], the
      validation against the enumerations, [CustomCRUD._get_request]
      and the queues and loops of [CustomSocket];
    - [schwab/streamer.py]: [StreamClient] (request ids, login handshake,
      subscriptions);
    - [schwab/auth.py]: [TokenManager] and
      [SchwabAsyncOAuth.check_authentication];
    - [schwab/client.py]: [SchwabClient.is_market_open];
    - [app.py]: [market_status_interrupt] and [update_market_times].

    Python values are modelled as the code has them: [str] as [string],
    unbounded [int] as [Z], a [dict] obtained from JSON as an association
    list, an exception as a constructor of [exn] carried by [result]. *)

From Stdlib Require Import ZArith List String Ascii Bool Lia PeanoNat Sorted.
From Stdlib Require Import Permutation DecimalString DecimalZ.
From Corelib Require PrimFloat.
Import ListNotations.

Set Implicit Arguments.
Set Warnings "-register-all".

(** ** Exceptions and results *)

(** The exception classes the modelled code raises, catches or lets
    through.  [JSONDecodeError] and [UnicodeDecodeError] are subclasses
    of [ValueError]; [RecursionError] and the redis client's
    [ConnectionError] are subclasses of neither [ValueError] nor
    [TypeError]. *)
Inductive exn : Type :=
| KeyError
| IndexError
| TypeError
| ValueError
| AttributeError
| OverflowError
| JSONDecodeError
| UnicodeDecodeError
| RecursionError
| RedisConnectionError
| OtherError (name : string).

(** [isinstance(e, ValueError)], what [except ValueError] catches. *)
Definition is_ValueError (e : exn) : bool :=
  match e with
  | ValueError | JSONDecodeError | UnicodeDecodeError => true
  | _ => false
  end.

(** [isinstance(e, TypeError)]. *)
Definition is_TypeError (e : exn) : bool :=
  match e with
  | TypeError => true
  | _ => false
  end.

(** [isinstance(e, KeyError)]. *)
Definition is_KeyError (e : exn) : bool :=
  match e with
  | KeyError => true
  | _ => false
  end.

Inductive result (A : Type) : Type :=
| Ret (a : A)
| Raise (e : exn).

Arguments Ret {A} a.
Arguments Raise {A} e.

Definition bind {A B : Type} (m : result A) (k : A -> result B) : result B :=
  match m with
  | Ret a => k a
  | Raise e => Raise e
  end.

Declare Scope py_scope.
Delimit Scope py_scope with py.
Notation "x <- m ;; k" := (bind m (fun x => k))
  (at level 61, m at next level, right associativity) : py_scope.
Notation "' p <- m ;; k" := (bind m (fun x => match x with p => k end))
  (at level 61, p pattern, m at next level, right associativity) : py_scope.

(** ** Python strings *)

Module PyStr.

Local Open Scope string_scope.

(** [c.isdigit()].  Option identifiers are ASCII, where the digits are
    the characters 0 to 9. *)
Definition isdigit (c : ascii) : bool :=
  let n := nat_of_ascii c in (48 <=? n)%nat && (n <=? 57)%nat.

(** [s[n:]] for [n >= 0]: a slice never raises, it clamps. *)
Fixpoint drop (n : nat) (s : string) : string :=
  match n, s with
  | O, _ => s
  | S _, EmptyString => EmptyString
  | S n', String _ s' => drop n' s'
  end.

(** [s[:n]] for [n >= 0]. *)
Fixpoint take (n : nat) (s : string) : string :=
  match n, s with
  | O, _ => EmptyString
  | S _, EmptyString => EmptyString
  | S n', String c s' => String c (take n' s')
  end.

(** [s[lo:hi]] for [0 <= lo <= hi]. *)
Definition slice (lo hi : nat) (s : string) : string :=
  take (hi - lo) (drop lo s).

(** [s[n]] for [n >= 0]; out of range raises [IndexError]. *)
Definition getitem (s : string) (n : nat) : result ascii :=
  match String.get n s with
  | Some c => Ret c
  | None => Raise IndexError
  end.

Fixpoint replicate (n : nat) (c : ascii) : string :=
  match n with
  | O => EmptyString
  | S n' => String c (replicate n' c)
  end.

(** [s.ljust(width, fill)]: [s] itself when it is already [width] long or
    longer, otherwise [s] followed by the missing fill characters. *)
Definition ljust (width : nat) (fill : ascii) (s : string) : string :=
  s ++ replicate (width - String.length s) fill.

(** Every character of [s] satisfies [p]. *)
Fixpoint all_chars (p : ascii -> bool) (s : string) : bool :=
  match s with
  | EmptyString => true
  | String c s' => p c && all_chars p s'
  end.

(** [",".join(xs)]. *)
Fixpoint join (sep : string) (xs : list string) : string :=
  match xs with
  | [] => EmptyString
  | [x] => x
  | x :: rest => x ++ sep ++ join sep rest
  end.

(** [str(n)] for an [int]. *)
Definition str_of_int (n : Z) : string :=
  NilZero.string_of_int (Z.to_int n).

End PyStr.

(** ** [schwab/utils.py]: the option symbol transform *)

Module Utils.

Import PyStr.
Local Open Scope string_scope.
Local Open Scope py_scope.

(** The loop
    [while i < len(input) and not input[i].isdigit(): i += 1].
    [rest] is [input[i:]]: the loop stops with [i = len(input)] when
    [rest] is empty, and with [i] at the first digit otherwise. *)
Fixpoint while_not_digit (rest : string) (i : nat) : nat :=
  match rest with
  | EmptyString => i
  | String c rest' => if isdigit c then i else while_not_digit rest' (S i)
  end.

Definition parse_option_string (input : string) : result string :=
  let i := while_not_digit input 0 in
  let symbol_root := ljust 6 " " (slice 0 i input) in
  let date_str := slice i (i + 6) input in
  option_type <- getitem input (i + 6) ;;
  let strike_price := ljust 8 "0" (drop (i + 7) input) in
  Ret (symbol_root ++ date_str ++ String option_type strike_price).

(** [convert_list_to_csv_string]. *)
Definition convert_list_to_csv_string (input : list string) : string :=
  join "," input.

End Utils.

(** ** JSON values

    What [json.loads] returns and [json.dumps] accepts: [None], [bool],
    [int], [float], [str], [list] and [dict] with string keys.  A [dict]
    is an association list in insertion order; a lookup takes the first
    binding of the key. *)

Module Json.

Local Open Scope string_scope.

Inductive json : Type :=
| JNull
| JBool (b : bool)
| JInt (n : Z)
| JFloat (f : PrimFloat.float)
| JStr (s : string)
| JArr (items : list json)
| JObj (fields : list (string * json)).

(** [bool(v)]: [None], [False], zero, the empty string, list and dict are
    falsy. *)
Definition truthy (v : json) : bool :=
  match v with
  | JNull => false
  | JBool b => b
  | JInt n => negb (n =? 0)%Z
  | JFloat f => negb (PrimFloat.eqb f PrimFloat.zero)
  | JStr s => negb (String.eqb s EmptyString)
  | JArr items => match items with [] => false | _ => true end
  | JObj fields => match fields with [] => false | _ => true end
  end.

(** [v == 0].  [bool] is a subclass of [int] ([False == 0]), a float
    compares by value, everything else is unequal to an [int]. *)
Definition eq_zero (v : json) : bool :=
  match v with
  | JBool b => negb b
  | JInt n => (n =? 0)%Z
  | JFloat f => PrimFloat.eqb f PrimFloat.zero
  | _ => false
  end.

Fixpoint lookup (k : string) (fields : list (string * json)) : option json :=
  match fields with
  | [] => None
  | (k', v) :: rest => if String.eqb k k' then Some v else lookup k rest
  end.

(** [v[k]] for a string key [k]. *)
Definition getitem_str (v : json) (k : string) : result json :=
  match v with
  | JObj fields =>
      match lookup k fields with
      | Some x => Ret x
      | None => Raise KeyError
      end
  | _ => Raise TypeError
  end.

(** [v[n]] for an integer index [n >= 0].  A dict built from JSON has no
    integer key, so the lookup raises [KeyError]. *)
Definition getitem_int (v : json) (n : nat) : result json :=
  match v with
  | JArr items =>
      match nth_error items n with
      | Some x => Ret x
      | None => Raise IndexError
      end
  | JObj _ => Raise KeyError
  | JStr s =>
      match String.get n s with
      | Some c => Ret (JStr (String c EmptyString))
      | None => Raise IndexError
      end
  | _ => Raise TypeError
  end.

(** Why [json.loads] gives up on a text before it has decided whether
    the text is a JSON document: the nesting goes beyond the
    interpreter's recursion limit, an integer literal has more digits
    than the interpreter converts, or the text is a [bytes] that is not
    valid in the encoding detected. *)
Inductive load_failure : Type :=
| NestedTooDeep
| IntegerTooLong
| BadEncoding.

Definition load_failure_exn (why : load_failure) : exn :=
  match why with
  | NestedTooDeep => RecursionError
  | IntegerTooLong => ValueError
  | BadEncoding => UnicodeDecodeError
  end.

(** A text ([str] or [bytes]) on the wire or in the store, identified
    with what [json.loads] makes of it: the text of a JSON document, a
    text that is not a JSON document, or a text [json.loads] gives up
    on. *)
Inductive text : Type :=
| Document (v : json)
| Garbage (raw : string)
| Unloadable (why : load_failure) (raw : string).

(** [json.loads(s)]: the value; [JSONDecodeError] for a text that is not
    a JSON document; [RecursionError], [ValueError] or
    [UnicodeDecodeError] for a text it gives up on. *)
Definition loads (s : text) : result json :=
  match s with
  | Document v => Ret v
  | Garbage _ => Raise JSONDecodeError
  | Unloadable why _ => Raise (load_failure_exn why)
  end.

(** [json.dumps(v)]. *)
Definition dumps (v : json) : text := Document v.

End Json.

(** ** [asyncio.Queue] *)

Module Queue.

(** An unbounded [asyncio.Queue]: the items, oldest first, and the count
    of items put but not yet marked done. *)
Record t (A : Type) : Type := mk {
  items : list A;
  unfinished_tasks : nat
}.

Arguments mk {A} items unfinished_tasks.

Definition empty {A : Type} : t A := mk [] 0.

(** [put(x)]: never blocks on an unbounded queue. *)
Definition put {A : Type} (x : A) (q : t A) : t A :=
  mk (items q ++ [x]) (S (unfinished_tasks q)).

(** [get()]: the oldest item, or [None] here when the caller has to wait. *)
Definition get {A : Type} (q : t A) : option (A * t A) :=
  match items q with
  | [] => None
  | x :: rest => Some (x, mk rest (unfinished_tasks q))
  end.

(** [task_done()]: raises [ValueError] when called more often than
    [put]. *)
Definition task_done {A : Type} (q : t A) : result (t A) :=
  match unfinished_tasks q with
  | O => Raise ValueError
  | S n => Ret (mk (items q) n)
  end.

(** Every queued item is still counted as unfinished. *)
Definition well_formed {A : Type} (q : t A) : Prop :=
  (List.length (items q) <= unfinished_tasks q)%nat.

End Queue.

(** ** Coroutines of the stream session

    A coroutine of the session runs on the session's state and either
    returns, raises, or waits for good on [await queue.get()] because
    nothing more arrives. *)

Inductive outcome (A : Type) : Type :=
| Returns (a : A)
| Raises (e : exn)
| Waits.

Arguments Returns {A} a.
Arguments Raises {A} e.
Arguments Waits {A}.

Module Task.

Section WithState.

Variable S : Type.

Definition task (A : Type) : Type := S -> outcome A * S.

Definition ret {A : Type} (a : A) : task A := fun s => (Returns a, s).

Definition bind {A B : Type} (m : task A) (k : A -> task B) : task B :=
  fun s =>
    match m s with
    | (Returns a, s') => k a s'
    | (Raises e, s') => (Raises e, s')
    | (Waits, s') => (Waits, s')
    end.

(** An expression that may raise, evaluated inside a coroutine. *)
Definition lift {A : Type} (r : result A) : task A :=
  fun s =>
    match r with
    | Ret a => (Returns a, s)
    | Raise e => (Raises e, s)
    end.

Definition read {A : Type} (f : S -> A) : task A := fun s => (Returns (f s), s).

Definition update (f : S -> S) : task unit := fun s => (Returns tt, f s).

(** [try: m  except E: h] where [catches] decides [isinstance(e, E)].
    What [m] did to the state before raising stays done. *)
Definition try_except {A : Type} (m : task A) (catches : exn -> bool)
    (h : exn -> task A) : task A :=
  fun s =>
    match m s with
    | (Raises e, s') => if catches e then h e s' else (Raises e, s')
    | r => r
    end.

End WithState.

End Task.

Declare Scope task_scope.
Delimit Scope task_scope with task.
Notation "x <~ m ;; k" := (Task.bind m (fun x => k))
  (at level 61, m at next level, right associativity) : task_scope.
Notation "m ;;; k" := (Task.bind m (fun _ => k))
  (at level 61, right associativity) : task_scope.

(** ** [schwab/utils.py]: [CustomSocket] *)

Module Socket.

Import Json.
Local Open Scope string_scope.
Local Open Scope task_scope.

(** The attributes of a [StreamClient], those of [CustomSocket] included.
    An attribute that is [None] holds [JNull].  [client_token] is
    [self.client.token].  The last two fields are the module's logger as
    the session uses it: [log] is the list of messages handed to it,
    oldest first, and [debug] is [logger.isEnabledFor(logging.DEBUG)],
    which [LOG_LEVEL] decides. *)
Record StreamClient : Type := mk {
  client_token : json;
  user_preference : json;
  _stream_customer_id : json;
  _stream_correl_id : json;
  _stream_channel : json;
  _stream_function_id : json;
  _stream_socket_url : json;
  _request_id : Z;
  send_queue : Queue.t text;
  receive_queue : Queue.t text;
  log : list string;
  debug : bool
}.

(** [StreamClient.__init__] after [CustomSocket.__init__], with the
    logger at the level [app.py] gives it by default ([LOG_LEVEL] is
    "INFO"). *)
Definition init (token user_pref : json) : StreamClient :=
  mk token user_pref JNull JNull JNull JNull JNull 0 Queue.empty Queue.empty []
     false.

Definition set_customer_id (v : json) (c : StreamClient) : StreamClient :=
  mk (client_token c) (user_preference c) v (_stream_correl_id c)
     (_stream_channel c) (_stream_function_id c) (_stream_socket_url c)
     (_request_id c) (send_queue c) (receive_queue c) (log c) (debug c).

Definition set_correl_id (v : json) (c : StreamClient) : StreamClient :=
  mk (client_token c) (user_preference c) (_stream_customer_id c) v
     (_stream_channel c) (_stream_function_id c) (_stream_socket_url c)
     (_request_id c) (send_queue c) (receive_queue c) (log c) (debug c).

Definition set_channel (v : json) (c : StreamClient) : StreamClient :=
  mk (client_token c) (user_preference c) (_stream_customer_id c)
     (_stream_correl_id c) v (_stream_function_id c) (_stream_socket_url c)
     (_request_id c) (send_queue c) (receive_queue c) (log c) (debug c).

Definition set_function_id (v : json) (c : StreamClient) : StreamClient :=
  mk (client_token c) (user_preference c) (_stream_customer_id c)
     (_stream_correl_id c) (_stream_channel c) v (_stream_socket_url c)
     (_request_id c) (send_queue c) (receive_queue c) (log c) (debug c).

Definition set_socket_url (v : json) (c : StreamClient) : StreamClient :=
  mk (client_token c) (user_preference c) (_stream_customer_id c)
     (_stream_correl_id c) (_stream_channel c) (_stream_function_id c) v
     (_request_id c) (send_queue c) (receive_queue c) (log c) (debug c).

Definition set_request_id (n : Z) (c : StreamClient) : StreamClient :=
  mk (client_token c) (user_preference c) (_stream_customer_id c)
     (_stream_correl_id c) (_stream_channel c) (_stream_function_id c)
     (_stream_socket_url c) n (send_queue c) (receive_queue c) (log c) (debug c).

Definition set_send_queue (q : Queue.t text) (c : StreamClient) : StreamClient :=
  mk (client_token c) (user_preference c) (_stream_customer_id c)
     (_stream_correl_id c) (_stream_channel c) (_stream_function_id c)
     (_stream_socket_url c) (_request_id c) q (receive_queue c) (log c) (debug c).

Definition set_receive_queue (q : Queue.t text) (c : StreamClient) : StreamClient :=
  mk (client_token c) (user_preference c) (_stream_customer_id c)
     (_stream_correl_id c) (_stream_channel c) (_stream_function_id c)
     (_stream_socket_url c) (_request_id c) (send_queue c) q (log c) (debug c).

Definition set_log (entries : list string) (c : StreamClient) : StreamClient :=
  mk (client_token c) (user_preference c) (_stream_customer_id c)
     (_stream_correl_id c) (_stream_channel c) (_stream_function_id c)
     (_stream_socket_url c) (_request_id c) (send_queue c) (receive_queue c)
     entries (debug c).


(** A call of [logger.debug], [logger.info] or [logger.exception]. *)
Definition logger (msg : string) (c : StreamClient) : StreamClient :=
  set_log (log c ++ [msg])%list c.

Definition task : Type -> Type := Task.task StreamClient.

(** [produce]: [await self.send_queue.put(json.dumps(request))]. *)
Definition produce (request : json) : task unit :=
  Task.update (fun c => set_send_queue (Queue.put (dumps request) (send_queue c)) c).

(** [except json.JSONDecodeError]. *)
Definition is_JSONDecodeError (e : exn) : bool :=
  match e with
  | JSONDecodeError => true
  | _ => false
  end.

(** The [finally: self.receive_queue.task_done()] of [consume]: it runs
    on every way out of the [try], and what it raises replaces the
    pending outcome. *)
Definition finally_task_done {A : Type} (pending : outcome A) : task A :=
  fun c =>
    match Queue.task_done (receive_queue c) with
    | Ret q => (pending, set_receive_queue q c)
    | Raise e => (Raises e, c)
    end.

(** [consume].  [json.loads] does not raise [asyncio.QueueEmpty], so that
    handler never runs.  After the [JSONDecodeError] handler the function
    falls off its end and returns [None]; what else [json.loads] raises
    has no handler and leaves [consume] after the [finally]. *)
Definition consume : task json :=
  fun c =>
    match Queue.get (receive_queue c) with
    | None => (Waits, c)
    | Some (msg_str, q) =>
        let c1 := set_receive_queue q c in
        match loads msg_str with
        | Ret v => finally_task_done (Returns v) c1
        | Raise e =>
            if is_JSONDecodeError e
            then finally_task_done (Returns JNull) (logger "Consume failed." c1)
            else finally_task_done (Raises e) c1
        end
    end.

(** What [await self._ws.send(msg)] does in one pass of the sender
    loop. *)
Inductive send_result : Type :=
| Sent
| SendClosed
| SendFailed (e : exn).

(** What [await asyncio.wait_for(self._ws.recv(), ...)] does in one pass
    of the receiver loop. *)
Inductive recv_result : Type :=
| Received (msg : text)
| RecvTimeout
| RecvClosed
| RecvFailed (e : exn).

(** The session with its socket: the frames written to the wire so far,
    oldest first, and whether the sender task is still alive (an
    exception that [_send_msg] does not catch ends the task). *)
Record session : Type := mk_session {
  client : StreamClient;
  wire : list text;
  sender_alive : bool
}.

(** One pass of the [while True] of [_send_msg].  [ws_closed] is
    [self._ws.closed or self._ws is None] at the top of the pass; with an
    empty queue [wait_for] times out and the pass ends. *)
Definition _send_msg (ws_closed : bool) (r : send_result) (s : session) : session :=
  if negb (sender_alive s) then s
  else if ws_closed
  then mk_session (logger "Connection is closed. Try re-connecting." (client s))
                  (wire s) true
  else
    match Queue.get (send_queue (client s)) with
    | None => s
    | Some (msg_to_send, q) =>
        let c1 := set_send_queue q (client s) in
        match r with
        | Sent =>
            match Queue.task_done q with
            | Ret q' => mk_session (set_send_queue q' c1) (wire s ++ [msg_to_send]) true
            | Raise _ => mk_session c1 (wire s ++ [msg_to_send]) false
            end
        | SendClosed => mk_session (logger "Socket error" c1) (wire s) true
        | SendFailed _ => mk_session c1 (wire s) false
        end
    end.

(** One pass of the [while True] of [_recv_msg]; every exception is
    caught and logged. *)
Definition _recv_msg (ws_closed : bool) (r : recv_result) (c : StreamClient) : StreamClient :=
  if ws_closed then logger "Connection is closed. Try re-connecting." c
  else
    match r with
    | Received msg => set_receive_queue (Queue.put msg (receive_queue c)) c
    | RecvTimeout => c
    | RecvClosed => logger "Connection closed error" c
    | RecvFailed _ => logger "Unexpected error" c
    end.

(** What happens to the outbound side of a session, in the order the
    event loop runs it: a call of [produce], or one pass of the sender
    loop. *)
Inductive event : Type :=
| Produce (request : json)
| SenderPass (ws_closed : bool) (r : send_result).

Definition step (s : session) (ev : event) : session :=
  match ev with
  | Produce request =>
      mk_session (snd (produce request (client s))) (wire s) (sender_alive s)
  | SenderPass ws_closed r => _send_msg ws_closed r s
  end.

Definition run (schedule : list event) (s : session) : session :=
  fold_left step schedule s.

(** The texts handed to [send_queue.put] by a schedule, in order. *)
Fixpoint enqueued (schedule : list event) : list text :=
  match schedule with
  | [] => []
  | Produce request :: rest => dumps request :: enqueued rest
  | SenderPass _ _ :: rest => enqueued rest
  end.

(** The socket takes every write: [send] succeeds in every pass of the
    sender loop. *)
Fixpoint writes_succeed (schedule : list event) : bool :=
  match schedule with
  | [] => true
  | Produce _ :: rest => writes_succeed rest
  | SenderPass _ Sent :: rest => writes_succeed rest
  | SenderPass _ _ :: _ => false
  end.

(** The number of passes of a schedule that find the socket open and a
    text waiting, when [queued] texts wait at its start and every pass
    that finds one takes it. *)
Fixpoint takes (schedule : list event) (queued : nat) : nat :=
  match schedule with
  | [] => O
  | Produce _ :: rest => takes rest (S queued)
  | SenderPass true _ :: rest => takes rest queued
  | SenderPass false _ :: rest =>
      match queued with
      | O => takes rest O
      | S queued' => S (takes rest queued')
      end
  end.

End Socket.

(** ** [schwab/services.py]: subscription parameters *)

Module Services.

Import Json.
Local Open Scope string_scope.
Local Open Scope py_scope.

Definition LevelOneEquities_Fields_ALL : string :=
  "0,1,2,3,4,5,6,7,8,9," ++
  "10,11,12,13,14,15,16,17,18,19," ++
  "20,21,22,23,24,25,26,27,28,29," ++
  "30,31,32,33,34,35,36,37,38,39," ++
  "40,41,42,43,44,45,46,47,48,49," ++
  "50,51".

Definition LevelOneOptions_Fields_ALL : string :=
  "0,1,2,3,4,5,6,7,8,9," ++
  "10,11,12,13,14,15,16,17,18,19," ++
  "20,21,22,23,24,25,26,27,28,29," ++
  "30,31,32,33,34,35,36,37,38,39," ++
  "40,41,42,43,44,45,46,47,48,49," ++
  "50,51,52,53,54,55".

Definition Book_Fields_ALL : string := "0,1,2,3".

(** [ALL if fields is None else convert_list_to_csv_string(fields)]. *)
Definition fields_or (all : string) (fields : option (list string)) : string :=
  match fields with
  | None => all
  | Some fs => Utils.convert_list_to_csv_string fs
  end.

Definition service_dict (service : string) (keys fields : string) : json :=
  JObj [("service", JStr service);
        ("command", JStr "SUBS");
        ("parameters", JObj [("keys", JStr keys); ("fields", JStr fields)])].

(** [[parse_option_string(ticker) for ticker in tickers]]. *)
Fixpoint parse_tickers (tickers : list string) : result (list string) :=
  match tickers with
  | [] => Ret []
  | ticker :: rest =>
      parsed <- Utils.parse_option_string ticker ;;
      others <- parse_tickers rest ;;
      Ret (parsed :: others)
  end.

Definition level_one_equities_sub (tickers : list string)
    (fields : option (list string)) : json :=
  let fields := fields_or LevelOneEquities_Fields_ALL fields in
  service_dict "LEVELONE_EQUITIES" (Utils.convert_list_to_csv_string tickers) fields.

Definition level_one_options_sub (tickers : list string)
    (fields : option (list string)) : result json :=
  let fields := fields_or LevelOneOptions_Fields_ALL fields in
  parsed_tickers <- parse_tickers tickers ;;
  Ret (service_dict "LEVELONE_OPTIONS"
         (Utils.convert_list_to_csv_string parsed_tickers) fields).

Definition options_book (tickers : list string)
    (fields : option (list string)) : result json :=
  let fields := fields_or Book_Fields_ALL fields in
  parsed_tickers <- parse_tickers tickers ;;
  Ret (service_dict "OPTIONS_BOOK"
         (Utils.convert_list_to_csv_string parsed_tickers) fields).

Definition nasdaq_book (tickers : list string)
    (fields : option (list string)) : json :=
  let fields := fields_or Book_Fields_ALL fields in
  service_dict "NASDAQ_BOOK" (Utils.convert_list_to_csv_string tickers) fields.

End Services.

(** ** [schwab/streamer.py]: [StreamClient] *)

Module Streamer.

Import Json Socket.
Local Open Scope string_scope.
Local Open Scope task_scope.

(** The envelope both [request_format] and [subscribe_service] build. *)
Definition envelope (service : json) (request_id : Z) (command : json)
    (customer_id correl_id params : json) : json :=
  JObj [("service", service);
        ("requestid", JStr (PyStr.str_of_int request_id));
        ("command", command);
        ("SchwabClientCustomerId", customer_id);
        ("SchwabClientCorrelId", correl_id);
        ("parameters", params)].

(** [request_id = self._request_id; self._request_id += 1]: nothing is
    awaited between the read and the write. *)
Definition next_request_id : task Z :=
  fun c => (Returns (_request_id c), set_request_id (_request_id c + 1) c).

Definition request_format (service command : string) (params : json) : task json :=
  request_id <~ next_request_id ;;
  customer_id <~ Task.read _stream_customer_id ;;
  correl_id <~ Task.read _stream_correl_id ;;
  Task.ret (envelope (JStr service) request_id (JStr command)
                     customer_id correl_id params).

Definition subscribe_service (service_dict : json) : task unit :=
  request_id <~ next_request_id ;;
  service <~ Task.lift (getitem_str service_dict "service") ;;
  command <~ Task.lift (getitem_str service_dict "command") ;;
  customer_id <~ Task.read _stream_customer_id ;;
  correl_id <~ Task.read _stream_correl_id ;;
  params <~ Task.lift (getitem_str service_dict "parameters") ;;
  let request := envelope service request_id command customer_id correl_id params in
  let requests := JObj [("requests", JArr [request])] in
  produce requests.

(** The [try] block of [_init_login_params]: the attributes are assigned
    one by one, so a [KeyError] half-way leaves the earlier ones set. *)
Definition read_stream_info : task unit :=
  data <~ Task.read user_preference ;;
  info_list <~ Task.lift (getitem_str data "streamerInfo") ;;
  stream_info <~ Task.lift (getitem_int info_list 0) ;;
  v <~ Task.lift (getitem_str stream_info "schwabClientCustomerId") ;;
  Task.update (set_customer_id v) ;;;
  v <~ Task.lift (getitem_str stream_info "schwabClientChannel") ;;
  Task.update (set_channel v) ;;;
  v <~ Task.lift (getitem_str stream_info "schwabClientCorrelId") ;;
  Task.update (set_correl_id v) ;;;
  v <~ Task.lift (getitem_str stream_info "schwabClientFunctionId") ;;
  Task.update (set_function_id v) ;;;
  v <~ Task.lift (getitem_str stream_info "streamerSocketUrl") ;;
  Task.update (set_socket_url v).

(** [logger.debug(msg, extra=e)] with the exception [e] as [extra].  A
    logger that is not enabled for DEBUG returns at once.  One that is
    builds the record, and [Logger.makeRecord] goes through the keys of
    [extra]: an exception is not iterable, so the call raises
    [TypeError]. *)
Definition debug_extra_exception (msg : string) : task unit :=
  Task.update (logger msg) ;;;
  enabled <~ Task.read debug ;;
  if enabled then Task.lift (Raise TypeError) else Task.ret tt.

(** [_init_login_params].  What the [KeyError] handler raises leaves the
    function. *)
Definition _init_login_params : task json :=
  Task.try_except read_stream_info is_KeyError
    (fun _ => debug_extra_exception "KeyError accessing user preferences params.") ;;;
  token <~ Task.read client_token ;;
  authorization <~ Task.lift (getitem_str token "access_token") ;;
  channel <~ Task.read _stream_channel ;;
  function_id <~ Task.read _stream_function_id ;;
  Task.ret (JObj [("Authorization", authorization);
                  ("SchwabClientChannel", channel);
                  ("SchwabClientFunctionId", function_id)]).

(** The loop [while not login_response] of [_is_login_success]: every
    pass takes one item off the receive queue, so [fuel] above the
    queue's length is never used up (lemma [poll_fuel] below). *)
Fixpoint poll_login_response (fuel : nat) : task json :=
  match fuel with
  | O => fun c => (Waits, c)
  | S fuel' =>
      login_response <~ consume ;;
      if truthy login_response
      then Task.ret login_response
      else poll_login_response fuel'  (* after [asyncio.sleep(0.1)] *)
  end.

(** [login_response["response"][0]["content"]["code"]]. *)
Definition status_code_of (login_response : json) : result json :=
  (response <- getitem_str login_response "response" ;;
   first <- getitem_int response 0 ;;
   content <- getitem_str first "content" ;;
   getitem_str content "code")%py.

(** The [try] of [_is_login_success]: [True], [False], or [None] after
    the [KeyError] handler. *)
Definition login_status (login_response : json) : task (option bool) :=
  Task.try_except
    (status_code <~ Task.lift (status_code_of login_response) ;;
     let status := if eq_zero status_code then true else false in
     Task.ret (Some status))
    is_KeyError
    (fun _ => Task.ret None).

Definition _is_login_success : task (option bool) :=
  fun c =>
    (login_response <~ poll_login_response (S (List.length (Queue.items (receive_queue c)))) ;;
     login_status login_response) c.

(** [not status] for what [_is_login_success] returns. *)
Definition not_ (status : option bool) : bool :=
  match status with
  | Some true => false
  | Some false => true
  | None => true
  end.

(** [connect] up to the verification of the login response.  [opened]
    is what [await ws_client.connect(url)] does; [arrivals] are the
    frames the receiver task, once created, puts on the receive queue
    while [connect] waits for the login response. *)
Definition send_login (opened : result unit) (arrivals : list text) : task unit :=
  login_request_params <~ _init_login_params ;;
  login_request <~ request_format "ADMIN" "LOGIN" login_request_params ;;
  Task.lift opened ;;;
  produce login_request ;;;
  Task.update (fun c => fold_left (fun c msg => _recv_msg false (Received msg) c) arrivals c).

Definition connect (opened : result unit) (arrivals : list text) : task unit :=
  send_login opened arrivals ;;;
  status <~ _is_login_success ;;
  (if not_ status then Task.update (logger "LOGIN FAILED.") else Task.ret tt) ;;;
  Task.update (logger "LOGIN SUCCESS.").

Definition level_one_equities_sub (tickers : list string)
    (fields : option (list string)) : task unit :=
  subscribe_service (Services.level_one_equities_sub tickers fields).

Definition level_one_options_sub (tickers : list string)
    (fields : option (list string)) : task unit :=
  data <~ Task.lift (Services.level_one_options_sub tickers fields) ;;
  subscribe_service data.

Definition options_book (tickers : list string)
    (fields : option (list string)) : task unit :=
  data <~ Task.lift (Services.options_book tickers fields) ;;
  subscribe_service data.

Definition nasdaq_book (tickers : list string)
    (fields : option (list string)) : task unit :=
  subscribe_service (Services.nasdaq_book tickers fields).

(** [connect] up to its first [await]: the login request is built, and
    its request id taken, before the socket is opened. *)
Definition connect_begin : task json :=
  login_request_params <~ _init_login_params ;;
  request_format "ADMIN" "LOGIN" login_request_params.

(** A session with the [connect] calls that are suspended at
    [await ws_client.connect(...)], oldest first, each holding the login
    request it has built. *)
Record stream : Type := mk_stream {
  stream_client : StreamClient;
  connecting : list json
}.

(** What the event loop runs on a session, one after the other: the
    start of a [connect] up to its [await] on the socket; the resumption
    of the [n]-th suspended [connect] once its socket is open; a
    subscription, which is not suspended before its [produce] (a [put]
    on an unbounded queue never waits).  A
    [connect] whose socket cannot be opened raises at the [await] and
    never enqueues its login request: for the send queue it is a
    [connect] that is never resumed. *)
Inductive call : Type :=
| Connect
| Connected (n : nat)
| Subscribe (service_dict : json)
| LevelOneEquities (tickers : list string) (fields : option (list string))
| LevelOneOptions (tickers : list string) (fields : option (list string))
| OptionsBook (tickers : list string) (fields : option (list string))
| NasdaqBook (tickers : list string) (fields : option (list string)).

Fixpoint remove_nth {A : Type} (n : nat) (xs : list A) : list A :=
  match n, xs with
  | _, [] => []
  | O, _ :: rest => rest
  | S n', x :: rest => x :: remove_nth n' rest
  end.

(** A coroutine of the client, run in a session. *)
Definition on_client (m : task unit) (s : stream) : outcome unit * stream :=
  let (r, c) := m (stream_client s) in (r, mk_stream c (connecting s)).

(** Runs one step.  [Connect] ends suspended ([Waits]) with its login
    request built, unless it raised before.  [Connected] is the
    [produce(login_request)] of the resumed [connect]; what [connect]
    does after it reads the receive queue and logs, and touches neither
    the counter nor the send queue. *)
Definition perform (k : call) (s : stream) : outcome unit * stream :=
  match k with
  | Connect =>
      match connect_begin (stream_client s) with
      | (Returns login_request, c) =>
          (Waits, mk_stream c (connecting s ++ [login_request]))
      | (Raises e, c) => (Raises e, mk_stream c (connecting s))
      | (Waits, c) => (Waits, mk_stream c (connecting s))
      end
  | Connected n =>
      match nth_error (connecting s) n with
      | Some login_request =>
          let (r, c) := produce login_request (stream_client s) in
          (r, mk_stream c (remove_nth n (connecting s)))
      | None => (Returns tt, s)
      end
  | Subscribe service_dict => on_client (subscribe_service service_dict) s
  | LevelOneEquities tickers fields => on_client (level_one_equities_sub tickers fields) s
  | LevelOneOptions tickers fields => on_client (level_one_options_sub tickers fields) s
  | OptionsBook tickers fields => on_client (options_book tickers fields) s
  | NasdaqBook tickers fields => on_client (nasdaq_book tickers fields) s
  end.

(** A sequence of steps; a call that raises is over, the session goes
    on with the next. *)
Definition perform_all (calls : list call) (s : stream) : stream :=
  fold_left (fun s k => snd (perform k s)) calls s.

(** The envelope a step constructs, if it constructs one: the login
    request [Connect] builds, the text a subscription puts on the send
    queue. *)
Definition constructed (k : call) (s : stream) : option text :=
  match k with
  | Connect =>
      match connect_begin (stream_client s) with
      | (Returns login_request, _) => Some (dumps login_request)
      | _ => None
      end
  | Connected _ => None
  | _ =>
      nth_error (Queue.items (send_queue (stream_client (snd (perform k s)))))
                (List.length (Queue.items (send_queue (stream_client s))))
  end.

(** The envelopes a sequence of steps constructs, in the order of their
    construction. *)
Fixpoint constructions (calls : list call) (s : stream) : list text :=
  match calls with
  | [] => []
  | k :: rest =>
      match constructed k s with
      | Some envelope => envelope :: constructions rest (snd (perform k s))
      | None => constructions rest (snd (perform k s))
      end
  end.



(** The [requestid] of an envelope on the send queue: of the login
    request itself, of the one request in a subscription's
    [{"requests": [...]}]. *)
Definition requestid_of (msg : text) : option string :=
  match loads msg with
  | Ret v =>
      let request :=
        match getitem_str v "requests" with
        | Ret (JArr [request]) => request
        | _ => v
        end in
      match getitem_str request "requestid" with
      | Ret (JStr id) => Some id
      | _ => None
      end
  | Raise _ => None
  end.

End Streamer.

(** ** Dates and times

    An aware UTC [datetime] is its number of microseconds since
    [datetime.min] (0001-01-01T00:00:00); a [timedelta] is a number of
    microseconds.  Comparisons of aware datetimes compare these
    instants. *)

Module Datetime.

Local Open Scope Z_scope.
Local Open Scope py_scope.

Definition datetime : Type := Z.
Definition timedelta : Type := Z.

(** [datetime.max], 9999-12-31T23:59:59.999999: day [3652059] of the
    proleptic calendar is the last one. *)
Definition max : datetime := 3652059 * 86400 * 1000000 - 1.

(** [timedelta(days=n)]. *)
Definition days (n : Z) : timedelta := n * 86400 * 1000000.

(** [t + d]: [OverflowError] outside [datetime.min .. datetime.max]. *)
Definition add (t : datetime) (d : timedelta) : result datetime :=
  if (0 <=? t + d) && (t + d <=? max) then Ret (t + d) else Raise OverflowError.

(** [a <= b] where either side may be [None]: ordering [None] against
    a [datetime] raises [TypeError]. *)
Definition le (a b : option datetime) : result bool :=
  match a, b with
  | Some x, Some y => Ret (x <=? y)
  | _, _ => Raise TypeError
  end.

(** The chained comparison [a <= b <= c] is [a <= b and b <= c]: the
    second comparison is not evaluated when the first is false. *)
Definition le_le (a b c : option datetime) : result bool :=
  first <- le a b ;;
  if first then le b c else Ret false.

End Datetime.

(** ** The market session gate: [app.py] and [check_mkt_hours] *)

Module Market.

Import Datetime.
Local Open Scope string_scope.
Local Open Scope py_scope.

(** The shared [mkt_status] dict as [SchwabClient.is_market_open] builds
    it: all three entries are [None] on a day the market is closed. *)
Record mkt_status : Type := mk {
  status : option bool;
  openTime : option datetime;
  closeTime : option datetime
}.

(** [check_mkt_hours] on the two parsed times, [current_time] being
    [datetime.now(timezone.utc)]. *)
Definition check_mkt_hours (open_time close_time current_time : datetime) : bool :=
  if (open_time <? current_time)%Z && (current_time <? close_time)%Z
  then true else false.

(** The body of the loop of [market_status_interrupt] up to the sleep:
    the new state of the [mkt_interrupt] event. *)
Definition gate_pass (m : mkt_status) (now : datetime) : result bool :=
  mkt_open <- le_le (openTime m) (Some now) (closeTime m) ;;
  Ret (if mkt_open then true (* set() *) else false (* clear() *)).

(** [market_status_interrupt] over the successive readings it takes, one
    per pass: the shared dict as it is then, and the clock.  An
    exception leaves the loop for the handler, which logs; the event
    keeps its last state and the task is over. *)
Fixpoint market_status_interrupt (readings : list (mkt_status * datetime))
    (mkt_interrupt : bool) (log : list string) : bool * list string :=
  match readings with
  | [] => (mkt_interrupt, log)
  | (m, now) :: rest =>
      match gate_pass m now with
      | Ret e => market_status_interrupt rest e log
      | Raise _ => (mkt_interrupt, (log ++ ["Failed market status check."])%list)
      end
  end.

End Market.

(** ** [schwab/auth.py]: the token lifecycle *)

Module Auth.

Import Json Datetime.
Local Open Scope string_scope.

(** A [TokenManager]: [token] is the token dict or [None] ([JNull]). *)
Record TokenManager : Type := mk_manager {
  token : json;
  created_timestamp : datetime
}.

(** [TokenManager.is_refresh_token_expired], with [now] the value of
    [datetime.now(timezone.utc)]. *)
Definition is_refresh_token_expired (m : TokenManager) (now : datetime) : result bool :=
  (limit <- add (created_timestamp m) (days 7) ;;
   Ret (limit <? now)%Z)%py.

(** The key-value store as [TokenManager] sees it.  [connect_db] returns
    the client object; [save] and [load] also guard against [None].
    With the client object in hand, an unreachable server shows in the
    [ConnectionError] that [r.get] and [r.set] raise. *)
Inductive db_status : Type :=
| NoClient
| Unreachable
| Online.

Record store : Type := mk_store {
  db : db_status;
  cell : option text   (* the value under [TOKEN_KEY] *)
}.

(** [r = self.connect_db(); if r is None: raise ValueError(...)]. *)
Definition connect_db (s : store) : result store :=
  match db s with
  | NoClient => Raise ValueError
  | _ => Ret s
  end.

(** [r.get(self._key)]. *)
Definition redis_get (r : store) : result (option text) :=
  match db r with
  | Online => Ret (cell r)
  | _ => Raise RedisConnectionError
  end.

(** [r.set(self._key, data)]. *)
Definition redis_set (r : store) (data : text) : result store :=
  match db r with
  | Online => Ret (mk_store Online (Some data))
  | _ => Raise RedisConnectionError
  end.

(** What a caller of [check_authentication] awaits from outside the
    process: the provider's token-refresh endpoint, and the interactive
    authorization (the operator's redirect URL, then the token
    endpoint). *)
Inductive request : Type :=
| Refresh (refresh_token : json)
| FetchToken.

(** A coroutine between two awaits runs on the shared state without
    interruption; at an await it is suspended with the rest of its code,
    which runs on the shared state as it is when the answer arrives. *)
Inductive susp (W A : Type) : Type :=
| Finished (r : result A)
| Awaiting (rq : request) (k : result json -> W -> W * susp W A).

Arguments Finished {W A} r.
Arguments Awaiting {W A} rq k.

Definition coro (W A : Type) : Type := W -> W * susp W A.

Section Coroutines.

Variable W : Type.

Definition ret {A : Type} (a : A) : coro W A := fun w => (w, Finished (Ret a)).

Definition raise {A : Type} (e : exn) : coro W A := fun w => (w, Finished (Raise e)).

Definition lift {A : Type} (r : result A) : coro W A := fun w => (w, Finished r).

Definition read {A : Type} (f : W -> A) : coro W A := fun w => (w, Finished (Ret (f w))).

Definition update (f : W -> W) : coro W unit := fun w => (f w, Finished (Ret tt)).

(** [await] of a call that leaves the process. *)
Definition await (rq : request) : coro W json :=
  fun w => (w, Awaiting rq (fun answer w' => (w', Finished answer))).

Fixpoint bind_susp {A B : Type} (s : susp W A) (k : A -> coro W B) (w : W)
    {struct s} : W * susp W B :=
  match s with
  | Finished (Ret a) => k a w
  | Finished (Raise e) => (w, Finished (Raise e))
  | Awaiting rq c =>
      (w, Awaiting rq (fun answer w' =>
                         let (w'', s') := c answer w' in bind_susp s' k w''))
  end.

Definition bind {A B : Type} (m : coro W A) (k : A -> coro W B) : coro W B :=
  fun w => let (w', s) := m w in bind_susp s k w'.

(** [try: m  except E: h], with awaits allowed in [m] and in [h]. *)
Fixpoint catch_susp {A : Type} (s : susp W A) (catches : exn -> bool)
    (h : exn -> coro W A) (w : W) {struct s} : W * susp W A :=
  match s with
  | Finished (Ret a) => (w, Finished (Ret a))
  | Finished (Raise e) => if catches e then h e w else (w, Finished (Raise e))
  | Awaiting rq c =>
      (w, Awaiting rq (fun answer w' =>
                         let (w'', s') := c answer w' in catch_susp s' catches h w''))
  end.

Definition try_except {A : Type} (m : coro W A) (catches : exn -> bool)
    (h : exn -> coro W A) : coro W A :=
  fun w => let (w', s) := m w in catch_susp s catches h w'.

End Coroutines.

Declare Scope coro_scope.
Delimit Scope coro_scope with coro.
Notation "x <~ m ;; k" := (bind m (fun x => k))
  (at level 61, m at next level, right associativity) : coro_scope.
Notation "m ;;; k" := (bind m (fun _ => k))
  (at level 61, right associativity) : coro_scope.

Local Open Scope coro_scope.

(** The state [check_authentication] works on: [self.token] and
    [self.token_metadata] of the [SchwabAsyncOAuth], the store behind
    the manager, the number of clock readings taken so far, and the
    messages handed to the logger. *)
Record oauth : Type := mk_oauth {
  session_token : json;
  token_metadata : TokenManager;
  redis : store;
  ticks : nat;
  log : list string
}.

(** [SchwabAsyncOAuth.__init__]: [TokenManager()] stamps itself with the
    time of construction. *)
Definition init (now : datetime) (s : store) : oauth :=
  mk_oauth JNull (mk_manager JNull now) s 0 [].

Definition set_session_token (v : json) (o : oauth) : oauth :=
  mk_oauth v (token_metadata o) (redis o) (ticks o) (log o).

Definition set_token_metadata (m : TokenManager) (o : oauth) : oauth :=
  mk_oauth (session_token o) m (redis o) (ticks o) (log o).

Definition set_redis (s : store) (o : oauth) : oauth :=
  mk_oauth (session_token o) (token_metadata o) s (ticks o) (log o).

Definition logger (msg : string) (o : oauth) : oauth :=
  mk_oauth (session_token o) (token_metadata o) (redis o) (ticks o)
           (log o ++ [msg])%list.

Section Provider.

(** The clock: its [n]-th reading. *)
Variable clock : nat -> datetime.

(** [OAuth2Token.is_expired()] of the OAuth library, as a truth value:
    the token and the clock's reading. *)
Variable is_expired : json -> datetime -> bool.

(** [datetime.timestamp()], a float, and
    [datetime.fromtimestamp(x, tz=timezone.utc)] on whatever the stored
    record holds. *)
Variable timestamp : datetime -> PrimFloat.float.
Variable fromtimestamp : json -> result datetime.

Definition now : coro oauth datetime :=
  fun o =>
    (mk_oauth (session_token o) (token_metadata o) (redis o) (S (ticks o)) (log o),
     Finished (Ret (clock (ticks o)))).

(** [tok.is_expired()]: only a token object has the method. *)
Definition token_is_expired (tok : json) : coro oauth bool :=
  match tok with
  | JObj _ => t <~ now ;; ret (is_expired tok t)
  | _ => raise AttributeError
  end.

(** [TokenManager.save] on [self.token_metadata]. *)
Definition save : coro oauth unit :=
  m <~ read token_metadata ;;
  s <~ read redis ;;
  r <~ lift (connect_db s) ;;
  let data := JObj [("created_timestamp", JFloat (timestamp (created_timestamp m)));
                    ("token", token m)] in
  r' <~ lift (redis_set r (dumps data)) ;;
  update (set_redis r').

(** [TokenManager.load] on [self.token_metadata]: the two attributes are
    assigned last, so a failure leaves the manager as it was. *)
Definition load : coro oauth unit :=
  s <~ read redis ;;
  r <~ lift (connect_db s) ;;
  data <~ lift (redis_get r) ;;
  match data with
  | None => raise TypeError
  | Some data =>
      data <~ lift (loads data) ;;
      stamp <~ lift (getitem_str data "created_timestamp") ;;
      created <~ lift (fromtimestamp stamp) ;;
      tok <~ lift (getitem_str data "token") ;;
      update (set_token_metadata (mk_manager tok created))
  end.

(** [manual_authentication]: the URL is logged, [input()] blocks the
    whole process until the operator answers, then the token endpoint is
    awaited; the new manager is stamped with the time of its
    construction. *)
Definition manual_authentication : coro oauth unit :=
  update (logger "Visit URL to authorize") ;;;
  update (logger "This was received") ;;;
  tok <~ await FetchToken ;;
  update (set_session_token tok) ;;;
  tok <~ read session_token ;;
  t <~ now ;;
  update (set_token_metadata (mk_manager tok t)) ;;;
  save.

(** The [try] block of the refresh branch. *)
Definition refresh_access_token : coro oauth unit :=
  m <~ read token_metadata ;;
  refresh_token <~ lift (getitem_str (token m) "refresh_token") ;;
  tok <~ await (Refresh refresh_token) ;;
  update (set_session_token tok) ;;;
  tok <~ read session_token ;;
  m <~ read token_metadata ;;
  update (set_token_metadata (mk_manager tok (created_timestamp m))) ;;;
  save.

(** [self.token is None or self.token.is_expired()]. *)
Definition token_missing_or_expired : coro oauth bool :=
  tok <~ read session_token ;;
  match tok with
  | JNull => ret true
  | _ => token_is_expired tok
  end.

(** The first statement of [check_authentication]: with no token in
    memory, or an expired one, the manager is loaded from the store. *)
Definition reload : coro oauth unit :=
  stale <~ token_missing_or_expired ;;
  if stale
  then try_except load
         (fun e => is_TypeError e || is_ValueError e)
         (fun e => if is_TypeError e then manual_authentication
                   else raise ValueError)
  else ret tt.

(** The rest of [check_authentication]: use the token, refresh it, or
    ask for a new authorization. *)
Definition renew : coro oauth unit :=
  m <~ read token_metadata ;;
  update (set_session_token (token m)) ;;;
  tok <~ read session_token ;;
  expired <~ token_is_expired tok ;;
  if negb expired then ret tt
  else
    m <~ read token_metadata ;;
    t <~ now ;;
    refresh_expired <~ lift (is_refresh_token_expired m t) ;;
    if negb refresh_expired
    then try_except refresh_access_token
           (fun _ => true)
           (fun e => update (logger "Refreshing access token failed") ;;; raise e)
    else manual_authentication.

Definition check_authentication : coro oauth unit :=
  reload ;;; renew.

(** A caller alone: every await is answered from [answers], in order;
    with no answer left the caller stays suspended.  The result comes
    with the requests made, in order. *)
Fixpoint run_susp {A : Type} (s : susp oauth A) (answers : list (result json))
    (o : oauth) {struct s} : oauth * outcome A * list request :=
  match s with
  | Finished (Ret a) => (o, Returns a, [])
  | Finished (Raise e) => (o, Raises e, [])
  | Awaiting rq k =>
      match answers with
      | [] => (o, Waits, [rq])
      | answer :: rest =>
          let (o', s') := k answer o in
          let '(o'', r, rqs) := run_susp s' rest o' in
          (o'', r, rq :: rqs)
      end
  end.

Definition run {A : Type} (m : coro oauth A) (answers : list (result json))
    (o : oauth) : oauth * outcome A * list request :=
  let (o', s) := m o in run_susp s answers o'.

(** Several callers on one event loop: the shared state, every caller's
    coroutine as far as it has come, the requests sent to the provider
    and the credential each caller found in [self.token] when its call
    returned. *)
Record loop : Type := mk_loop {
  shared : oauth;
  callers : list (susp oauth unit);
  requests : list request;
  observed : list json
}.

Inductive turn : Type :=
| Call                                   (* a caller enters [check_authentication] *)
| Answer (i : nat) (answer : result json). (* caller [i]'s await is answered *)

(** Books a coroutine that has just run up to its next suspension. *)
Definition settle (o : oauth) (s : susp oauth unit) (l : loop)
    (place : list (susp oauth unit)) : loop :=
  match s with
  | Awaiting rq _ => mk_loop o place (requests l ++ [rq]) (observed l)
  | Finished (Ret _) => mk_loop o place (requests l) (observed l ++ [session_token o])
  | Finished (Raise _) => mk_loop o place (requests l) (observed l)
  end.

Fixpoint replace_nth {A : Type} (i : nat) (x : A) (xs : list A) : list A :=
  match xs, i with
  | [], _ => []
  | _ :: rest, O => x :: rest
  | y :: rest, S i' => y :: replace_nth i' x rest
  end.

Definition loop_step (l : loop) (t : turn) : loop :=
  match t with
  | Call =>
      let (o, s) := check_authentication (shared l) in
      settle o s l (callers l ++ [s])
  | Answer i answer =>
      match nth_error (callers l) i with
      | Some (Awaiting _ k) =>
          let (o, s) := k answer (shared l) in
          settle o s l (replace_nth i s (callers l))
      | _ => l
      end
  end.

Definition run_loop (turns : list turn) (o : oauth) : loop :=
  fold_left loop_step turns (mk_loop o [] [] []).

Definition is_Refresh (rq : request) : bool :=
  match rq with
  | Refresh _ => true
  | FetchToken => false
  end.

(** The number of calls made to the provider's refresh endpoint. *)
Definition refresh_calls (l : loop) : nat :=
  List.length (filter is_Refresh (requests l)).

End Provider.

End Auth.

(** ** [schwab/utils.py]: validation against the enumerations *)

Module Validation.

Local Open Scope string_scope.
Local Open Scope py_scope.

(** An [Enum] class: its name and the values of its members, in the
    order of definition. *)
Record enum_cls : Type := mk_enum {
  cls_name : string;
  cls_values : list string
}.

(** What a caller passes for a field: a member of some [Enum] class
    (the class's name and the member's value), a [str], or an object of
    another type. *)
Inductive field : Type :=
| Member (cls : string) (value : string)
| Str (s : string)
| Object.

(** [schwab/enums.py]. *)
Definition Quote_Fields : enum_cls :=
  mk_enum "Quote.Fields" ["quote"; "fundamental"; "extended"; "reference"; "regular"].

Definition Markets_MktType : enum_cls :=
  mk_enum "Markets.MktType" ["bond"; "equity"; "option"; "future"; "forex"].

Definition Markets_Session : enum_cls :=
  mk_enum "Markets.Session" ["preMarket"; "regularMarket"; "postMarket"].

Definition Option_Type : enum_cls :=
  mk_enum "Option.Type" ["ALL"; "S"; "NS"].

(** [field in {member.value for member in enum_cls}]. *)
Definition is_value (s : string) (enum : enum_cls) : bool :=
  existsb (String.eqb s) (cls_values enum).

(** [check_enum_value]. *)
Definition check_enum_value (f : field) (enum : enum_cls) : result string :=
  match f with
  | Member cls value =>
      if String.eqb cls (cls_name enum) then Ret value else Raise ValueError
  | Str s => if is_value s enum then Ret s else Raise ValueError
  | Object => Raise ValueError
  end.

(** What a caller passes for a list of fields: [None], a list, or one
    field alone. *)
Inductive iterable : Type :=
| NoFields
| Fields (xs : list field)
| Alone (f : field).

(** [[check_enum_value(val, enum_cls) for val in xs]]. *)
Fixpoint check_each (xs : list field) (enum : enum_cls) : result (list string) :=
  match xs with
  | [] => Ret []
  | val :: rest =>
      v <- check_enum_value val enum ;;
      vs <- check_each rest enum ;;
      Ret (v :: vs)
  end.

(** The characters of a [str], each a [str] of length one. *)
Fixpoint characters (s : string) : list field :=
  match s with
  | EmptyString => []
  | String c rest => Str (String c EmptyString) :: characters rest
  end.

(** [validate_enums_iterable], called with an [Enum] class.  A [str]
    is an [Iterable]: alone, it is gone through character by
    character. *)
Definition validate_enums_iterable (it : iterable) (enum : enum_cls)
  : result (list string) :=
  match it with
  | NoFields => Ret []
  | Fields xs => check_each xs enum
  | Alone (Str s) => check_each (characters s) enum
  | Alone f => v <- check_enum_value f enum ;; Ret [v]
  end.

End Validation.

(** ** [schwab/utils.py], [schwab/endpoints.py], [schwab/client.py],
       [app.py]: the market-hours request *)

Module Client.

Import Json Datetime Market Auth Validation.
Local Open Scope string_scope.
Local Open Scope py_scope.
Local Open Scope coro_scope.

(** [item in s] for two [str]: [item] occurs in [s]. *)
Fixpoint occurs (item s : string) : bool :=
  String.prefix item s
  || match s with
     | EmptyString => false
     | String _ rest => occurs item rest
     end.

(** [item in v] for a [str] [item]: a key of a dict, an element of a
    list, a substring of a [str]; [TypeError] on what is not iterable. *)
Definition contains (v : json) (item : string) : result bool :=
  match v with
  | JObj fields => Ret (match lookup item fields with Some _ => true | None => false end)
  | JArr items =>
      Ret (existsb (fun x => match x with
                             | JStr s => String.eqb s item
                             | _ => false
                             end) items)
  | JStr s => Ret (occurs item s)
  | _ => Raise TypeError
  end.

Definition is_InvalidTokenError (e : exn) : bool :=
  match e with
  | OtherError name => String.eqb name "InvalidTokenError"
  | _ => false
  end.

(** [except (httpx.HTTPStatusError, httpx.HTTPError)]. *)
Definition is_HTTPError (e : exn) : bool :=
  match e with
  | OtherError name => String.eqb name "HTTPStatusError" || String.eqb name "HTTPError"
  | _ => false
  end.

(** The market of the reply: [response["equity"]["equity"]] on a day
    the market is closed, [response["equity"]["EQ"]] on a day it is
    open.  With neither key [path] is never assigned and its first use
    raises [UnboundLocalError]. *)
Definition market_entry (data : json) : result json :=
  markets <- getitem_str data "equity" ;;
  closed_key <- contains markets "equity" ;;
  if closed_key then getitem_str markets "equity"
  else
    open_key <- contains markets "EQ" ;;
    if open_key then getitem_str markets "EQ"
    else Raise (OtherError "UnboundLocalError").

(** [path["sessionHours"][mkt_session][0][key]]. *)
Definition session_time (path : json) (mkt_session key : string) : result json :=
  hours <- getitem_str path "sessionHours" ;;
  sessions <- getitem_str hours mkt_session ;;
  first <- getitem_int sessions 0 ;;
  getitem_str first key.

Section Http.

Variable clock : nat -> datetime.
Variable is_expired : json -> datetime -> bool.
Variable timestamp : datetime -> PrimFloat.float.
Variable fromtimestamp : json -> result datetime.

(** An [httpx.Response], its [raise_for_status()] and its [json()]. *)
Variable response : Type.
Variable raise_for_status : response -> result unit.
Variable response_json : response -> result json.

(** [datetime.fromisoformat(x).astimezone(timezone.utc)]. *)
Variable fromisoformat : json -> result datetime.

(** [CustomCRUD._check_response]: the response, or [None] after the
    exception of [raise_for_status] has been logged. *)
Definition _check_response (resp : response) : coro oauth (option response) :=
  match raise_for_status resp with
  | Ret _ => ret (Some resp)
  | Raise e =>
      update (logger (if is_HTTPError e then "HTTP Error" else "Unexpected error")) ;;;
      ret None
  end.

(** [CustomCRUD._get_request], [got] being what
    [await self.session.get(url=url, params=data)] gave.  The handler
    for [InvalidTokenError] ends without a [return]. *)
Definition _get_request (got : result response) : coro oauth (option response) :=
  try_except
    (resp <~ lift got ;; _check_response resp)
    is_InvalidTokenError
    (fun _ => check_authentication clock is_expired timestamp fromtimestamp ;;;
              ret None).

(** [MarketHours.get_market_status]. *)
Definition get_market_status (market_id : field) (got : result response)
  : coro oauth (option response) :=
  _ <~ lift (check_enum_value market_id Markets_MktType) ;;
  _get_request got.

(** [utils.check_mkt_hours] on the two strings of the reply. *)
Definition check_mkt_hours (otime ctime : json) : coro oauth bool :=
  open_time <~ lift (fromisoformat otime) ;;
  close_time <~ lift (fromisoformat ctime) ;;
  current_time <~ now clock ;;
  update (logger "Current time: {current_time} Close time: {close_time}") ;;;
  ret (Market.check_mkt_hours open_time close_time current_time).

(** [SchwabClient.is_market_open]; [mkt_session] is [None] or what the
    caller passed. *)
Definition is_market_open (mkt_session : option field) (got : result response)
  : coro oauth mkt_status :=
  response <~ get_market_status (Str "equity") got ;;
  data <~ lift (match response with
                | Some resp => response_json resp
                | None => Raise AttributeError
                end) ;;
  path <~ lift (market_entry data) ;;
  mkt_open_today <~ lift (getitem_str path "isOpen") ;;
  if negb (truthy mkt_open_today) then ret (Market.mk None None None)
  else
    mkt_session <~ lift (match mkt_session with
                         | Some f => check_enum_value f Markets_Session
                         | None => Ret "regularMarket"
                         end) ;;
    otime <~ lift (session_time path mkt_session "start") ;;
    ctime <~ lift (session_time path mkt_session "end") ;;
    openTime <~ lift (fromisoformat otime) ;;
    closeTime <~ lift (fromisoformat ctime) ;;
    status <~ check_mkt_hours otime ctime ;;
    ret (Market.mk (Some status) (Some openTime) (Some closeTime)).

(** One pass of the loop of [update_market_times] after its sleep, on
    the shared [mkt_status] dict: the dict afterwards. *)
Definition update_market_times (shared : mkt_status) (mkt_session : option field)
    (got : result response) : coro oauth mkt_status :=
  try_except
    (updated_status <~ is_market_open mkt_session got ;;
     let shared' := Market.mk (status shared) (openTime updated_status)
                              (closeTime updated_status) in
     update (logger "Requested market status.") ;;;
     ret shared')
    (fun _ => true)
    (fun _ => update (logger "Failed market status check.") ;;; ret shared).

End Http.

End Client.

(** * Properties *)

Unset Implicit Arguments.

(** ** The option symbol transform *)

Section OptionSymbol.

Import PyStr Utils.
Local Open Scope string_scope.

Definition not_digit (c : ascii) : bool := negb (isdigit c).

Lemma drop_append (a b : string) (n : nat) :
  drop (String.length a + n) (a ++ b) = drop n b.
Proof.
  induction a as [|c a IH]; simpl; [reflexivity | exact IH].
Qed.

Lemma take_append (a b : string) :
  take (String.length a) (a ++ b) = a.
Proof.
  induction a as [|c a IH]; simpl.
  - destruct b; reflexivity.
  - now rewrite IH.
Qed.

Lemma get_append (a b : string) (n : nat) :
  String.get (String.length a + n) (a ++ b) = String.get n b.
Proof.
  induction a as [|c a IH]; simpl; [reflexivity | exact IH].
Qed.

Lemma while_not_digit_root (root rest : string) (i : nat) :
  all_chars not_digit root = true ->
  while_not_digit (root ++ rest) i = while_not_digit rest (i + String.length root).
Proof.
  revert i; induction root as [|c root IH]; intros i H; simpl in *.
  - now rewrite Nat.add_0_r.
  - apply andb_prop in H as [Hc Hroot].
    unfold not_digit in Hc. apply negb_true_iff in Hc. rewrite Hc.
    rewrite IH by assumption. f_equal. lia.
Qed.

Lemma while_not_digit_stops (date rest : string) (i : nat) :
  String.length date = 6 -> all_chars isdigit date = true ->
  while_not_digit (date ++ rest) i = i.
Proof.
  destruct date as [|d date]; simpl; [discriminate|].
  intros _ H. apply andb_prop in H as [Hd _]. now rewrite Hd.
Qed.

(** On [root ++ date ++ type ++ strike] with a digit-free root and a date
    of six digits, the transform returns the root padded with spaces to
    6 characters, the date, the type character, and the strike padded
    with zeros to 8 characters. *)
Lemma parse_option_string_layout (root date : string) (option_type : ascii)
    (strike : string) :
  all_chars not_digit root = true ->
  String.length date = 6 ->
  all_chars isdigit date = true ->
  parse_option_string (root ++ date ++ String option_type strike)
  = Ret (ljust 6 " " root ++ date ++ String option_type (ljust 8 "0" strike)).
Proof.
  intros Hroot Hlen Hdate.
  unfold parse_option_string.
  rewrite while_not_digit_root by assumption.
  rewrite while_not_digit_stops by assumption.
  simpl Nat.add.
  set (i := String.length root).
  assert (Hget : getitem (root ++ date ++ String option_type strike) (i + 6)
                 = Ret option_type).
  { unfold getitem, i. rewrite get_append. rewrite <- Hlen.
    replace (String.length date) with (String.length date + 0) by lia.
    rewrite get_append. reflexivity. }
  rewrite Hget. simpl bind.
  assert (Hroot' : slice 0 i (root ++ date ++ String option_type strike) = root).
  { unfold slice, i. rewrite Nat.sub_0_r. simpl drop. apply take_append. }
  assert (Hdate' : slice i (i + 6) (root ++ date ++ String option_type strike) = date).
  { unfold slice, i.
    replace (String.length root + 6 - String.length root) with 6 by lia.
    replace (String.length root) with (String.length root + 0) at 1 by lia.
    rewrite drop_append. simpl drop. rewrite <- Hlen. apply take_append. }
  assert (Hstrike : drop (i + 7) (root ++ date ++ String option_type strike) = strike).
  { unfold i. rewrite drop_append.
    replace 7 with (String.length date + 1) by lia.
    rewrite drop_append. reflexivity. }
  now rewrite Hroot', Hdate', Hstrike.
Qed.

(** C1: the option symbol transform is a function of its argument alone
    that lays out root, date, type and strike in the fixed-width form;
    in particular it maps "AAPL241115C00200" to "AAPL  241115C00200000"
    and "GOOG250101P01500" to "GOOG  250101P01500000". *)
Theorem parse_option_string_spec :
  (forall (root date : string) (option_type : ascii) (strike : string),
      all_chars not_digit root = true ->
      String.length date = 6 ->
      all_chars isdigit date = true ->
      parse_option_string (root ++ date ++ String option_type strike)
      = Ret (ljust 6 " " root ++ date ++ String option_type (ljust 8 "0" strike)))
  /\ parse_option_string "AAPL241115C00200" = Ret "AAPL  241115C00200000"
  /\ parse_option_string "GOOG250101P01500" = Ret "GOOG  250101P01500000".
Proof.
  split; [exact parse_option_string_layout | split; reflexivity].
Qed.

Lemma parse_option_string_spec_witness :
  (all_chars not_digit "GOOG" = true
   /\ String.length "250101" = 6
   /\ all_chars isdigit "250101" = true)
  /\ parse_option_string ("GOOG" ++ "250101" ++ String "P" "01500")
     = Ret (ljust 6 " " "GOOG" ++ "250101" ++ String "P" (ljust 8 "0" "01500")).
Proof.
  split.
  - repeat split; reflexivity.
  - apply (proj1 parse_option_string_spec "GOOG" "250101" "P"%char "01500");
      reflexivity.
Defined.

(** An identifier that stops short of the type character makes the
    transform raise [IndexError]. *)
Example parse_option_string_short :
  parse_option_string "GOOG2501" = Raise IndexError.
Proof. reflexivity. Qed.

End OptionSymbol.

(** ** The refresh credential's seven days *)

Section RefreshExpiry.

Import Json Datetime Auth.
Local Open Scope Z_scope.

Lemma is_refresh_token_expired_in_range (m : TokenManager) (now : datetime) :
  0 <= created_timestamp m ->
  created_timestamp m + days 7 <= max ->
  is_refresh_token_expired m now = Ret (created_timestamp m + days 7 <? now).
Proof.
  intros Hlo Hhi. unfold is_refresh_token_expired, add.
  assert (H0 : 0 <= days 7) by (unfold days; lia).
  replace (0 <=? created_timestamp m + days 7) with true
    by (symmetry; apply Z.leb_le; lia).
  replace (created_timestamp m + days 7 <=? max) with true
    by (symmetry; apply Z.leb_le; lia).
  reflexivity.
Qed.

(** C3: the check as the code has it.  The refresh credential is
    reported expired exactly when [now] is later than
    [created_timestamp + 7 days]; at the boundary itself, where the
    claim, and the code's own note that a refresh token is valid for
    less than 7 days, want it expired, it is reported not expired. *)
Theorem is_refresh_token_expired_strict (m : TokenManager) (now : datetime) :
  0 <= created_timestamp m ->
  created_timestamp m + days 7 <= max ->
  (is_refresh_token_expired m now = Ret true
   <-> created_timestamp m + days 7 < now)
  /\ (is_refresh_token_expired m now = Ret false
      <-> now <= created_timestamp m + days 7)
  /\ is_refresh_token_expired m (created_timestamp m + days 7) = Ret false.
Proof.
  intros Hlo Hhi.
  repeat split; rewrite ?is_refresh_token_expired_in_range by assumption.
  - intros H. injection H as H. now apply Z.ltb_lt.
  - intros H. f_equal. now apply Z.ltb_lt.
  - intros H. injection H as H. now apply Z.ltb_ge.
  - intros H. f_equal. now apply Z.ltb_ge.
  - f_equal. apply Z.ltb_irrefl.
Qed.

(** 2024-11-01T00:00:00Z, day 739191 of the calendar. *)
Definition issued : datetime := 739190 * 86400 * 1000000.

Lemma is_refresh_token_expired_strict_witness :
  (0 <= created_timestamp (mk_manager JNull issued)
   /\ created_timestamp (mk_manager JNull issued) + days 7 <= max)
  /\ is_refresh_token_expired (mk_manager JNull issued) (issued + days 7) = Ret false.
Proof.
  split.
  - split; vm_compute; discriminate.
  - apply (is_refresh_token_expired_strict (mk_manager JNull issued) (issued + days 7));
      vm_compute; discriminate.
Defined.

(** The code departs from C3 at the boundary: a credential issued at
    [issued] is, at exactly [issued + 7 days], not reported expired,
    although [now >= created_timestamp + 7 days] holds there. *)
Lemma refresh_boundary_counterexample :
  is_refresh_token_expired (mk_manager JNull issued) (issued + days 7) = Ret false
  /\ issued + days 7 >= created_timestamp (mk_manager JNull issued) + days 7
  /\ ~ (forall (m : TokenManager) (now : datetime),
          is_refresh_token_expired m now = Ret true
          <-> now >= created_timestamp m + days 7).
Proof.
  split; [reflexivity | split; [simpl; lia |]].
  intros H.
  destruct (H (mk_manager JNull issued) (issued + days 7)) as [_ H'].
  assert (Hge : issued + days 7 >= created_timestamp (mk_manager JNull issued) + days 7)
    by (simpl; lia).
  specialize (H' Hge). vm_compute in H'. discriminate.
Qed.

End RefreshExpiry.

(** ** The market session gate *)

Section MarketGate.

Import Datetime Market.
Local Open Scope Z_scope.

Lemma gate_pass_window (st : option bool) (o c now : datetime) :
  gate_pass (mk st (Some o) (Some c)) now = Ret ((o <=? now) && (now <=? c)).
Proof.
  unfold gate_pass, le_le; simpl.
  destruct (o <=? now); simpl; [destruct (now <=? c)|]; reflexivity.
Qed.

(** After a pass of the loop that does not raise, the event is what
    [gate_pass] computed. *)
Lemma market_status_interrupt_pass (m : mkt_status) (now : datetime)
    (e : bool) (log : list string) (set : bool) :
  gate_pass m now = Ret set ->
  market_status_interrupt [(m, now)] e log = (set, log).
Proof.
  intros H. simpl. now rewrite H.
Qed.

(** C4 as amended: for a window [openTime <= closeTime], the gate is
    clear before [openTime], set at [openTime], throughout the window
    and still at [closeTime], and clear after [closeTime]: the window is
    closed on both sides. *)
Theorem market_gate_closed_window (st : option bool) (o c now : datetime) :
  o <= c ->
  (now < o -> gate_pass (mk st (Some o) (Some c)) now = Ret false)
  /\ gate_pass (mk st (Some o) (Some c)) o = Ret true
  /\ (o <= now <= c -> gate_pass (mk st (Some o) (Some c)) now = Ret true)
  /\ gate_pass (mk st (Some o) (Some c)) c = Ret true
  /\ (c < now -> gate_pass (mk st (Some o) (Some c)) now = Ret false).
Proof.
  intros Hoc. rewrite !gate_pass_window.
  repeat split; intros; f_equal.
  - apply andb_false_iff; left; apply Z.leb_gt; lia.
  - apply andb_true_iff; split; apply Z.leb_le; lia.
  - apply andb_true_iff; split; apply Z.leb_le; lia.
  - apply andb_true_iff; split; apply Z.leb_le; lia.
  - apply andb_false_iff; right; apply Z.leb_gt; lia.
Qed.

(** A time of day on 2024-10-28, in UTC. *)
Definition utc (hour minute : Z) : datetime :=
  (739186 * 86400 + hour * 3600 + minute * 60) * 1000000.

Definition session_window : mkt_status :=
  mk (Some true) (Some (utc 10 0)) (Some (utc 16 0)).

Lemma market_gate_closed_window_witness :
  utc 10 0 <= utc 16 0
  /\ gate_pass session_window (utc 16 0) = Ret true.
Proof.
  split.
  - vm_compute; discriminate.
  - apply (market_gate_closed_window (Some true) (utc 10 0) (utc 16 0) (utc 16 0)).
    vm_compute; discriminate.
Defined.

(** C4 as stated fails at the close: with the window 10:00 to 16:00 the
    gate is clear at 09:59 and set at 10:00, and at 16:00 it is still
    set; the loop leaves the event set there. *)
Lemma market_gate_close_counterexample :
  gate_pass session_window (utc 9 59) = Ret false
  /\ gate_pass session_window (utc 10 0) = Ret true
  /\ gate_pass session_window (utc 16 0) = Ret true
  /\ market_status_interrupt [(session_window, utc 16 0)] false [] = (true, []).
Proof.
  repeat split.
Qed.

(** [check_mkt_hours], which fills the [status] entry, is open on both
    sides: false at [openTime] and at [closeTime]. *)
Lemma check_mkt_hours_open_interval (o c now : datetime) :
  check_mkt_hours o c now = true <-> o < now < c.
Proof.
  unfold check_mkt_hours.
  destruct (o <? now) eqn:H1, (now <? c) eqn:H2; simpl;
    rewrite ?Z.ltb_lt, ?Z.ltb_ge in *; split; intros; try lia; try discriminate;
    reflexivity.
Qed.

(** A [None] in the shared dict ends the task: the comparison raises,
    the handler logs, and the event keeps its state. *)
Lemma market_status_interrupt_none (c : option datetime) (now : datetime)
    (e : bool) (log : list string) rest :
  market_status_interrupt ((mk None None c, now) :: rest) e log
  = (e, (log ++ ["Failed market status check."%string])%list).
Proof. reflexivity. Qed.

End MarketGate.

(** ** The outbound queue *)

Section Outbound.

Import Json Socket.

(** [Subseq xs ys]: [xs] is [ys] with some elements left out, the rest in
    the same order. *)
Inductive Subseq {A : Type} : list A -> list A -> Prop :=
| Subseq_nil : Subseq [] []
| Subseq_keep (x : A) (xs ys : list A) : Subseq xs ys -> Subseq (x :: xs) (x :: ys)
| Subseq_skip (x : A) (xs ys : list A) : Subseq xs ys -> Subseq xs (x :: ys).

Lemma Subseq_refl {A : Type} (xs : list A) : Subseq xs xs.
Proof. induction xs; constructor; assumption. Qed.

Lemma Subseq_trans {A : Type} (ys zs : list A) :
  Subseq ys zs -> forall xs, Subseq xs ys -> Subseq xs zs.
Proof.
  induction 1 as [|x ys zs _ IH|x ys zs _ IH]; intros xs Hxs.
  - assumption.
  - inversion Hxs; subst.
    + apply Subseq_keep, IH; assumption.
    + apply Subseq_skip, IH; assumption.
  - apply Subseq_skip, IH; assumption.
Qed.

Lemma Subseq_app_tail {A : Type} (xs ys tail : list A) :
  Subseq xs ys -> Subseq (xs ++ tail) (ys ++ tail).
Proof.
  induction 1; simpl.
  - apply Subseq_refl.
  - now apply Subseq_keep.
  - now apply Subseq_skip.
Qed.

Lemma Subseq_drop_middle {A : Type} (xs : list A) (x : A) (ys : list A) :
  Subseq (xs ++ ys) (xs ++ x :: ys).
Proof.
  induction xs; simpl.
  - apply Subseq_skip, Subseq_refl.
  - now apply Subseq_keep.
Qed.

(** What has been written, followed by what is still queued. *)
Definition outbound (s : session) : list text :=
  wire s ++ Queue.items (send_queue (client s)).

Lemma outbound_produce (s : session) (request : json) :
  outbound (step s (Produce request)) = outbound s ++ [dumps request].
Proof.
  unfold outbound; simpl. now rewrite app_assoc.
Qed.

Lemma outbound_sender_pass (s : session) (ws_closed : bool) (r : send_result) :
  Subseq (outbound (step s (SenderPass ws_closed r))) (outbound s)
  /\ (r = Sent -> outbound (step s (SenderPass ws_closed r)) = outbound s).
Proof.
  unfold outbound, step, _send_msg.
  destruct (sender_alive s); simpl; [|split; auto using Subseq_refl].
  destruct ws_closed; simpl; [split; auto using Subseq_refl|].
  unfold Queue.get.
  destruct (Queue.items (send_queue (client s))) as [|msg rest] eqn:Hitems;
    [rewrite Hitems; split; auto using Subseq_refl|].
  destruct r as [| |e]; simpl.
  - unfold Queue.task_done; simpl.
    destruct (Queue.unfinished_tasks (send_queue (client s))); simpl;
      rewrite <- app_assoc; simpl; split; auto using Subseq_refl.
  - split; [apply Subseq_drop_middle | discriminate].
  - split; [apply Subseq_drop_middle | discriminate].
Qed.

Lemma run_snoc (schedule : list event) (ev : event) (s : session) :
  run (schedule ++ [ev]) s = step (run schedule s) ev.
Proof. unfold run. now rewrite fold_left_app. Qed.

Lemma enqueued_snoc (schedule : list event) (ev : event) :
  enqueued (schedule ++ [ev])
  = enqueued schedule ++ match ev with Produce request => [dumps request] | _ => [] end.
Proof.
  induction schedule as [|e schedule IH]; simpl.
  - destruct ev; reflexivity.
  - destruct e; simpl; now rewrite IH.
Qed.

Lemma writes_succeed_snoc (schedule : list event) (ev : event) :
  writes_succeed (schedule ++ [ev]) = true ->
  writes_succeed schedule = true
  /\ match ev with SenderPass _ r => r = Sent | _ => True end.
Proof.
  induction schedule as [|e schedule IH]; simpl.
  - destruct ev as [|? []]; intros; split; auto; discriminate.
  - destruct e as [|? []]; auto; discriminate.
Qed.

(** Nothing is written out of order, and nothing is written that was
    not enqueued. *)
Lemma outbound_in_order (schedule : list event) (s : session) :
  Subseq (outbound (run schedule s)) (outbound s ++ enqueued schedule).
Proof.
  induction schedule as [|ev schedule IH] using rev_ind.
  - simpl. rewrite app_nil_r. apply Subseq_refl.
  - rewrite run_snoc, enqueued_snoc.
    destruct ev as [request|ws_closed r].
    + rewrite outbound_produce, app_assoc. now apply Subseq_app_tail.
    + rewrite app_nil_r.
      apply Subseq_trans with (ys := outbound (run schedule s)); [assumption|].
      apply outbound_sender_pass.
Qed.

(** With every write taken by the socket, nothing is lost either. *)
Lemma outbound_complete (schedule : list event) (s : session) :
  writes_succeed schedule = true ->
  outbound (run schedule s) = outbound s ++ enqueued schedule.
Proof.
  induction schedule as [|ev schedule IH] using rev_ind; intros Hok.
  - simpl. now rewrite app_nil_r.
  - apply writes_succeed_snoc in Hok as [Hok Hev].
    rewrite run_snoc, enqueued_snoc.
    destruct ev as [request|ws_closed r].
    + now rewrite outbound_produce, IH, app_assoc.
    + rewrite app_nil_r, <- IH by assumption. now apply outbound_sender_pass.
Qed.

(** With every write taken by the socket, each pass of the sender loop
    that finds the socket open and a text waiting writes the oldest
    text: the frames written are the first texts of the queue as it was
    followed by the texts enqueued, as many as there were such
    passes. *)
Lemma sender_writes_oldest (schedule : list event) :
  forall s : session,
    sender_alive s = true ->
    Queue.well_formed (send_queue (client s)) ->
    writes_succeed schedule = true ->
    let waiting := Queue.items (send_queue (client s)) ++ enqueued schedule in
    let n := takes schedule (List.length (Queue.items (send_queue (client s)))) in
    wire (run schedule s) = wire s ++ firstn n waiting
    /\ Queue.items (send_queue (client (run schedule s))) = skipn n waiting
    /\ sender_alive (run schedule s) = true.
Proof.
  induction schedule as [|ev schedule IH]; intros s Halive Hwf Hok; simpl.
  - rewrite !app_nil_r. auto.
  - unfold run in *. simpl fold_left.
    destruct ev as [request|[|] r].
    + simpl in Hok.
      destruct (IH (step s (Produce request))) as [Hwire [Hqueue Hlive]];
        [exact Halive | | exact Hok |].
      { unfold Queue.well_formed in *. simpl. rewrite length_app. simpl. lia. }
      simpl in Hwire, Hqueue.
      rewrite length_app, Nat.add_1_r, <- app_assoc in Hwire, Hqueue.
      auto.
    + assert (Hok' : writes_succeed schedule = true)
        by (simpl in Hok; destruct r; [exact Hok | discriminate | discriminate]).
      assert (Hstep : step s (SenderPass true r)
                      = mk_session (logger "Connection is closed. Try re-connecting."
                                           (client s)) (wire s) true)
        by (unfold step, _send_msg; rewrite Halive; reflexivity).
      rewrite Hstep.
      destruct (IH (mk_session (logger "Connection is closed. Try re-connecting."
                                       (client s)) (wire s) true))
        as [Hwire [Hqueue Hlive]]; auto.
    + assert (Hr : r = Sent /\ writes_succeed schedule = true)
        by (simpl in Hok; destruct r; [auto | discriminate | discriminate]).
      destruct Hr as [-> Hok'].
      remember (step s (SenderPass false Sent)) as s1 eqn:Hs1.
      unfold step, _send_msg, Queue.get in Hs1. rewrite Halive in Hs1.
      simpl negb in Hs1. cbv iota in Hs1.
      destruct (Queue.items (send_queue (client s))) as [|msg rest] eqn:Hitems.
      * subst s1. destruct (IH s) as [Hwire [Hqueue Hlive]]; auto.
        rewrite Hitems in Hwire, Hqueue. auto.
      * unfold Queue.well_formed in Hwf. rewrite Hitems in Hwf. simpl in Hwf.
        unfold Queue.task_done in Hs1. simpl in Hs1.
        destruct (Queue.unfinished_tasks (send_queue (client s))) as [|u] eqn:Hu;
          [lia|].
        destruct (IH s1) as [Hwire [Hqueue Hlive]];
          [subst s1; reflexivity
          | subst s1; unfold Queue.well_formed; simpl; lia
          | exact Hok' |].
        subst s1. simpl in Hwire, Hqueue. rewrite <- app_assoc in Hwire. auto.
Qed.

(** A pass with the socket open, a text waiting and a [send] that
    succeeds writes the oldest text and takes it off the queue, whatever
    happened before. *)
Lemma sender_pass_writes (s : session) (msg : text) (rest : list text) :
  sender_alive s = true ->
  Queue.items (send_queue (client s)) = msg :: rest ->
  wire (step s (SenderPass false Sent)) = wire s ++ [msg]
  /\ Queue.items (send_queue (client (step s (SenderPass false Sent)))) = rest.
Proof.
  intros Halive Hitems.
  unfold step, _send_msg, Queue.get, Queue.task_done.
  rewrite Halive, Hitems. simpl.
  destruct (Queue.unfinished_tasks (send_queue (client s))); simpl; auto.
Qed.

(** C6: whatever the interleaving of [produce] calls and passes of the
    sender loop, the frames written so far followed by the texts still
    queued are the enqueued texts in their order of submission, less the
    ones a failed [send] lost.  A pass that finds the socket open and a
    text waiting, and whose [send] succeeds, writes the oldest text.
    When no [send] fails, written and queued texts together are exactly
    the enqueued ones, and the wire holds the first of them, in order,
    as many as there were passes that found the socket open and a text
    waiting. *)
Theorem send_queue_fifo (schedule : list event) (s : session) :
  Subseq (outbound (run schedule s)) (outbound s ++ enqueued schedule)
  /\ (forall (msg : text) (rest : list text),
         sender_alive (run schedule s) = true ->
         Queue.items (send_queue (client (run schedule s))) = msg :: rest ->
         wire (run (schedule ++ [SenderPass false Sent]) s)
         = wire (run schedule s) ++ [msg]
         /\ Queue.items
              (send_queue (client (run (schedule ++ [SenderPass false Sent]) s)))
            = rest)
  /\ (writes_succeed schedule = true ->
      outbound (run schedule s) = outbound s ++ enqueued schedule)
  /\ (writes_succeed schedule = true ->
      sender_alive s = true ->
      Queue.well_formed (send_queue (client s)) ->
      wire (run schedule s)
      = wire s
        ++ firstn (takes schedule (List.length (Queue.items (send_queue (client s)))))
                  (Queue.items (send_queue (client s)) ++ enqueued schedule)).
Proof.
  split; [|split; [|split]].
  - apply outbound_in_order.
  - intros msg rest Halive Hitems. rewrite run_snoc.
    now apply sender_pass_writes.
  - apply outbound_complete.
  - intros Hok Halive Hwf.
    apply (sender_writes_oldest schedule s Halive Hwf Hok).
Qed.

(** A fresh session with its socket open. *)
Definition fresh : session :=
  mk_session (init JNull JNull) [] true.

Definition m1 : json := JStr "m1".
Definition m2 : json := JStr "m2".
Definition m3 : json := JStr "m3".

(** Three messages enqueued while the sender loop runs in between, times
    out on the empty queue and finds the socket closed for a while. *)
Definition interleaved : list event :=
  [SenderPass false Sent; Produce m1; Produce m2; SenderPass false Sent;
   SenderPass true Sent; Produce m3; SenderPass false Sent; SenderPass false Sent;
   SenderPass false Sent].

Lemma send_queue_fifo_witness :
  (writes_succeed interleaved = true
   /\ sender_alive fresh = true
   /\ Queue.well_formed (send_queue (client fresh)))
  /\ outbound (run interleaved fresh) = outbound fresh ++ enqueued interleaved
  /\ takes interleaved 0 = 3%nat
  /\ wire (run interleaved fresh) = [dumps m1; dumps m2; dumps m3].
Proof.
  assert (Hwf : Queue.well_formed (send_queue (client fresh)))
    by (unfold Queue.well_formed; simpl; lia).
  split; [repeat split; exact Hwf|]. split; [|split].
  - apply (proj1 (proj2 (proj2 (send_queue_fifo interleaved fresh)))). reflexivity.
  - reflexivity.
  - rewrite (proj2 (proj2 (proj2 (send_queue_fifo interleaved fresh)))
               eq_refl eq_refl Hwf).
    reflexivity.
Defined.

(** Once the queue is drained and no [send] has failed, the wire holds
    every enqueued text, in the order of submission. *)
Corollary send_queue_drained (schedule : list event) :
  writes_succeed schedule = true ->
  Queue.items (send_queue (client (run schedule fresh))) = [] ->
  wire (run schedule fresh) = enqueued schedule.
Proof.
  intros Hok Hempty.
  pose proof (outbound_complete schedule fresh Hok) as H.
  unfold outbound in H. rewrite Hempty, app_nil_r in H. exact H.
Qed.

(** A [send] that finds the connection closed loses the message it had
    taken off the queue; the others keep their order. *)
Example send_closed_loses_message :
  wire (run [Produce m1; Produce m2; Produce m3; SenderPass false Sent;
             SenderPass false SendClosed; SenderPass false Sent] fresh)
  = [dumps m1; dumps m3].
Proof. reflexivity. Qed.

End Outbound.

(** ** The inbound queue *)

Section Inbound.

Import Json Socket.
Local Open Scope string_scope.

(** The receive queue stays well formed under the receiver loop and
    under [consume], and it is so at the start. *)
Lemma receive_queue_init (token user_pref : json) :
  Queue.well_formed (receive_queue (init token user_pref)).
Proof. unfold Queue.well_formed; simpl; lia. Qed.

Lemma _recv_msg_well_formed (ws_closed : bool) (r : recv_result) (c : StreamClient) :
  Queue.well_formed (receive_queue c) ->
  Queue.well_formed (receive_queue (_recv_msg ws_closed r c)).
Proof.
  unfold Queue.well_formed, _recv_msg.
  destruct ws_closed; [auto|]. destruct r; simpl; auto.
  rewrite length_app; simpl; lia.
Qed.

Lemma consume_well_formed (c : StreamClient) :
  Queue.well_formed (receive_queue c) ->
  Queue.well_formed (receive_queue (snd (consume c))).
Proof.
  unfold Queue.well_formed, consume, Queue.get. intros Hwf.
  destruct (Queue.items (receive_queue c)) as [|msg rest] eqn:Hitems.
  - simpl. rewrite Hitems. exact Hwf.
  - destruct (loads msg) as [v|e]; [|destruct (is_JSONDecodeError e)];
      unfold finally_task_done, Queue.task_done; simpl;
      destruct (Queue.unfinished_tasks (receive_queue c)); simpl in *; lia.
Qed.

(** C10: what [consume] does with an inbound text on which
    [json.loads] raises.  A [JSONDecodeError] is caught and logged, and
    [consume] returns [None].  Any other exception of [json.loads] is
    not caught: [consume] raises it to its caller and logs nothing.
    Either way the item is off the queue and marked done. *)
Theorem consume_invalid_json (c : StreamClient) (msg : text) (q : Queue.t text)
    (e : exn) :
  Queue.well_formed (receive_queue c) ->
  Queue.get (receive_queue c) = Some (msg, q) ->
  loads msg = Raise e ->
  exists q' : Queue.t text,
    consume c
    = (if is_JSONDecodeError e then Returns JNull else Raises e,
       set_receive_queue q'
         (if is_JSONDecodeError e
          then logger "Consume failed." (set_receive_queue q c)
          else set_receive_queue q c))
    /\ Queue.items (receive_queue c) = msg :: Queue.items q'
    /\ Queue.unfinished_tasks (receive_queue c) = S (Queue.unfinished_tasks q')
    /\ Queue.well_formed q'.
Proof.
  intros Hwf Hget Hloads.
  unfold consume. rewrite Hget, Hloads. simpl.
  unfold Queue.get in Hget. unfold Queue.well_formed in *.
  destruct (Queue.items (receive_queue c)) as [|x rest] eqn:Hitems; [discriminate|].
  injection Hget as -> <-.
  destruct (is_JSONDecodeError e);
    unfold finally_task_done, Queue.task_done; simpl;
    (destruct (Queue.unfinished_tasks (receive_queue c)) as [|n] eqn:Hn;
     simpl in *; [lia|]);
    eexists; repeat split; simpl; lia.
Qed.

(** A binary frame whose bytes are not valid UTF-8, received and put on
    the queue of a new session. *)
Definition inbox : StreamClient :=
  _recv_msg false (Received (Unloadable BadEncoding "ff")) (init JNull JNull).

Lemma consume_invalid_json_witness :
  (Queue.well_formed (receive_queue inbox)
   /\ Queue.get (receive_queue inbox)
      = Some (Unloadable BadEncoding "ff", Queue.mk [] 1)
   /\ loads (Unloadable BadEncoding "ff") = Raise UnicodeDecodeError)
  /\ fst (consume inbox) = Raises UnicodeDecodeError
  /\ Queue.unfinished_tasks (receive_queue (snd (consume inbox))) = O.
Proof.
  split.
  - repeat split. unfold Queue.well_formed; simpl; lia.
  - destruct (consume_invalid_json inbox (Unloadable BadEncoding "ff") (Queue.mk [] 1)
                                   UnicodeDecodeError)
      as [q' [H [_ [Hdone _]]]].
    + unfold Queue.well_formed; simpl; lia.
    + reflexivity.
    + reflexivity.
    + rewrite H. simpl. split; [reflexivity|].
      simpl in Hdone. now injection Hdone.
Defined.

(** A text frame that is not a JSON document: the decode error is
    caught and [consume] returns [None]. *)
Example consume_garbage :
  fst (consume (_recv_msg false (Received (Garbage "<html>502</html>"))
                          (init JNull JNull)))
  = Returns JNull.
Proof. reflexivity. Qed.

(** The text [null] gives the same [None]: a caller of [consume] cannot
    tell it from a text that failed to decode. *)
Example consume_null :
  fst (consume (_recv_msg false (Received (Document JNull)) (init JNull JNull)))
  = Returns JNull.
Proof. reflexivity. Qed.

End Inbound.

(** ** Request ids *)

Section RequestIds.

Import Json Socket Streamer.
Local Open Scope Z_scope.






(** A subscription built by [services.py] is always enqueued. *)
Lemma subscribe_service_dict (service keys fields : string) (c : StreamClient) :
  fst (subscribe_service (Services.service_dict service keys fields) c) = Returns tt.
Proof. reflexivity. Qed.

Lemma sorted_app (xs ys : list Z) :
  StronglySorted Z.lt xs -> StronglySorted Z.lt ys ->
  (forall x y, In x xs -> In y ys -> x < y) ->
  StronglySorted Z.lt (xs ++ ys).
Proof.
  induction xs as [|x xs IH]; simpl; intros Hxs Hys Hlt; [assumption|].
  inversion Hxs; subst. constructor.
  - apply IH; auto.
  - apply Forall_app. split; [assumption|].
    apply Forall_forall. intros y Hy. apply Hlt; auto.
Qed.

















Definition queued (s : stream) : list text :=
  Queue.items (send_queue (stream_client s)).












Local Open Scope string_scope.

(** A session as [__init__] leaves it, with the streamer information of
    a user-preference document. *)
Definition preferences : json :=
  JObj [("streamerInfo",
         JArr [JObj [("streamerSocketUrl", JStr "wss://streamer.example/ws");
                     ("schwabClientCustomerId", JStr "customer");
                     ("schwabClientCorrelId", JStr "correl");
                     ("schwabClientChannel", JStr "N9");
                     ("schwabClientFunctionId", JStr "APIAPP")]])].

Definition bearer : json :=
  JObj [("access_token", JStr "access"); ("refresh_token", JStr "refresh");
        ("expires_in", JInt 1800); ("expires_at", JInt 1730419200)].

Definition new_session : StreamClient := init bearer preferences.


(** A subscription made while [connect] waits for its socket. *)
Definition overtaking : list call :=
  [Connect; LevelOneEquities ["SPY"; "QQQ"] None; Connected 0].


(** The login request is enqueued only after the socket is open: a
    subscription made in between goes on the send queue first, so that
    the queue holds id 1 before id 0, while the ids in the order of
    construction are 0, 1. *)
Example login_request_overtaken :
  map requestid_of (constructions overtaking (mk_stream new_session []))
  = [Some "0"; Some "1"]
  /\ map requestid_of
       (Queue.items
          (send_queue (stream_client (perform_all overtaking
                                                  (mk_stream new_session [])))))
     = [Some "1"; Some "0"].
Proof. split; reflexivity. Qed.

End RequestIds.

(** ** The login handshake *)

Section Login.

Import Json Socket Streamer.
Local Open Scope string_scope.

Lemma login_status_cases (login_response : json) (c : StreamClient) :
  login_status login_response c
  = match status_code_of login_response with
    | Ret code => (Returns (Some (eq_zero code)), c)
    | Raise e => if is_KeyError e then (Returns None, c) else (Raises e, c)
    end.
Proof.
  unfold login_status, Task.try_except, Task.bind, Task.lift, Task.ret.
  destruct (status_code_of login_response) as [code|e]; simpl.
  - now destruct (eq_zero code).
  - now destruct (is_KeyError e).
Qed.

Lemma consume_items (c : StreamClient) (r : outcome json) (c' : StreamClient) :
  consume c = (r, c') ->
  r <> Waits ->
  Queue.items (receive_queue c') = tl (Queue.items (receive_queue c))
  /\ Queue.items (receive_queue c) <> [].
Proof.
  unfold consume, Queue.get.
  destruct (Queue.items (receive_queue c)) as [|msg rest] eqn:Hitems.
  - intros H Hr. injection H as <- _. now elim Hr.
  - intros H _. split; [|discriminate].
    destruct (loads msg) as [v|e]; [|destruct (is_JSONDecodeError e)];
      unfold finally_task_done, Queue.task_done in H; simpl in H;
      destruct (Queue.unfinished_tasks (receive_queue c));
      injection H as _ <-; reflexivity.
Qed.

(** The poll never runs out of fuel: any amount above the number of
    queued items gives the same result. *)
Lemma poll_fuel (fuel : nat) (c : StreamClient) :
  (List.length (Queue.items (receive_queue c)) < fuel)%nat ->
  poll_login_response fuel c
  = poll_login_response (S (List.length (Queue.items (receive_queue c)))) c.
Proof.
  revert c. induction fuel as [|fuel IH]; intros c Hlt; [lia|].
  simpl. unfold Task.bind.
  destruct (consume c) as [r c'] eqn:Hc.
  destruct r as [v|e|]; try reflexivity.
  destruct (truthy v); [reflexivity|].
  destruct (consume_items c _ _ Hc) as [Htl Hne]; [discriminate|].
  destruct (Queue.items (receive_queue c)) as [|msg rest]; [now elim Hne|].
  simpl in *.
  rewrite (IH c') by (rewrite Htl; lia).
  rewrite Htl. reflexivity.
Qed.

(** [connect] up to and including the login check. *)
Definition handshake (opened : result unit) (arrivals : list text)
  : task (option bool) :=
  (send_login opened arrivals ;;; _is_login_success)%task.

Lemma connect_after_handshake (opened : result unit) (arrivals : list text)
    (c : StreamClient) (status : option bool) (c1 : StreamClient) :
  handshake opened arrivals c = (Returns status, c1) ->
  connect opened arrivals c
  = (Returns tt,
     logger "LOGIN SUCCESS."
       (if not_ status then logger "LOGIN FAILED." c1 else c1)).
Proof.
  unfold handshake, connect, Task.bind.
  destruct (send_login opened arrivals c) as [[[]|e|] c0]; try discriminate.
  destruct (_is_login_success c0) as [[st|e|] c0']; try discriminate.
  intros H. injection H as -> ->.
  destruct (not_ status); reflexivity.
Qed.

(** C2 as amended: the login check returns [True] exactly when the
    response it polled has [response[0].content.code] equal to 0, and
    [False] on any other code; when the check does not return [True],
    [connect] logs "LOGIN FAILED." and returns normally, changes nothing
    else in the session, and a subscription requested afterwards is put
    on the send queue. *)
Theorem login_handshake_outcome :
  (forall (c : StreamClient) (login_response : json) (c1 : StreamClient),
      poll_login_response (S (List.length (Queue.items (receive_queue c)))) c
      = (Returns login_response, c1) ->
      forall b : bool,
        _is_login_success c = (Returns (Some b), c1)
        <-> exists code : json,
            status_code_of login_response = Ret code /\ eq_zero code = b)
  /\ (forall (opened : result unit) (arrivals : list text)
         (c : StreamClient) (status : option bool) (c1 : StreamClient),
        handshake opened arrivals c = (Returns status, c1) ->
        status <> Some true ->
        exists (entries : list string) (c2 : StreamClient),
          connect opened arrivals c = (Returns tt, c2)
          /\ c2 = set_log (log c1 ++ entries)%list c1
          /\ In "LOGIN FAILED." entries
          /\ forall service keys fields : string,
              exists msg : text,
                fst (subscribe_service (Services.service_dict service keys fields) c2)
                = Returns tt
                /\ Queue.items
                     (send_queue
                        (snd (subscribe_service
                                (Services.service_dict service keys fields) c2)))
                   = (Queue.items (send_queue c2) ++ [msg])%list).
Proof.
  split.
  - intros c lr c1 Hpoll b.
    unfold _is_login_success, Task.bind. rewrite Hpoll, login_status_cases.
    destruct (status_code_of lr) as [code|e].
    + split.
      * intros H. injection H as H. eauto.
      * intros [code' [Hc Hb]]. injection Hc as <-. now rewrite Hb.
    + split.
      * destruct (is_KeyError e); discriminate.
      * intros [code' [Hc _]]. discriminate.
  - intros opened arrivals c status c1 Hhs Hfail.
    rewrite (connect_after_handshake _ _ _ _ _ Hhs).
    assert (Hnot : not_ status = true) by (destruct status as [[]|]; auto; now elim Hfail).
    rewrite Hnot.
    exists ["LOGIN FAILED."; "LOGIN SUCCESS."]. eexists. split; [reflexivity|].
    split; [|split].
    + unfold logger, set_log; simpl. now rewrite <- app_assoc.
    + now left.
    + intros service keys fields. eexists. split; reflexivity.
Qed.

(** The provider's answer to a login it refuses, and to one it accepts. *)
Definition login_response_with (code : Z) : text :=
  Document
    (JObj [("response",
            JArr [JObj [("service", JStr "ADMIN"); ("command", JStr "LOGIN");
                        ("content", JObj [("code", JInt code); ("msg", JStr "OK")])]])]).

Definition denied : text := login_response_with 3.
Definition accepted : text := login_response_with 0.

Lemma login_handshake_outcome_witness :
  (handshake (Ret tt) [denied] new_session
   = (Returns (Some false), snd (handshake (Ret tt) [denied] new_session))
   /\ Some false <> Some true)
  /\ exists (entries : list string) (c2 : StreamClient),
      connect (Ret tt) [denied] new_session = (Returns tt, c2)
      /\ In "LOGIN FAILED." entries.
Proof.
  split.
  - split; [vm_compute; reflexivity | discriminate].
  - destruct (proj2 login_handshake_outcome (Ret tt) [denied] new_session
                (Some false) (snd (handshake (Ret tt) [denied] new_session)))
      as [entries [c2 [Hc [_ [Hin _]]]]].
    + vm_compute; reflexivity.
    + discriminate.
    + exists entries, c2. split; assumption.
Defined.

(** The session after a [connect] whose login the provider refused. *)
Definition refused : StreamClient := snd (connect (Ret tt) [denied] new_session).

(** C2 as stated fails: on a login response with code 3 the check
    returns [False], yet [connect] returns normally and leaves the
    session as a successful login leaves it, the log apart; a
    subscription issued next is enqueued and the sender loop writes it to
    the wire after the login request. *)
Lemma login_failure_counterexample :
  fst (handshake (Ret tt) [denied] new_session) = Returns (Some false)
  /\ fst (connect (Ret tt) [denied] new_session) = Returns tt
  /\ set_log [] refused = set_log [] (snd (connect (Ret tt) [accepted] new_session))
  /\ fst (level_one_equities_sub ["SPY"] None refused) = Returns tt
  /\ map requestid_of
       (wire (run [SenderPass false Sent; SenderPass false Sent]
                  (mk_session (snd (level_one_equities_sub ["SPY"] None refused))
                              [] true)))
     = [Some "0"; Some "1"].
Proof.
  repeat (split; [vm_compute; reflexivity|]). vm_compute; reflexivity.
Qed.

(** On a refused login both messages are logged. *)
Example connect_logs_after_refusal :
  log refused = ["LOGIN FAILED."; "LOGIN SUCCESS."].
Proof. vm_compute; reflexivity. Qed.

(** A response without the [code] key makes the check return [None]; a
    response whose [response] list is empty makes it raise
    [IndexError], which [connect] lets through. *)
Example login_response_without_code :
  fst (handshake (Ret tt)
         [Document (JObj [("response", JArr [JObj [("content", JObj [])]])])]
         new_session)
  = Returns None.
Proof. vm_compute; reflexivity. Qed.

Example login_response_empty_list :
  fst (connect (Ret tt) [Document (JObj [("response", JArr [])])] new_session)
  = Raises IndexError.
Proof. vm_compute; reflexivity. Qed.

(** Texts that do not decode, and empty documents, are skipped by the
    poll; with nothing else arriving [connect] stays suspended. *)
Example login_poll_skips :
  fst (handshake (Ret tt) [Garbage "ping"; Document (JObj []); accepted] new_session)
  = Returns (Some true)
  /\ fst (connect (Ret tt) [Garbage "ping"] new_session) = Waits.
Proof. split; vm_compute; reflexivity. Qed.

End Login.

(** ** The token lifecycle *)

Section TokenLifecycle.

Import Json Datetime Auth.
Local Open Scope string_scope.

Variable clock : nat -> datetime.
Variable is_expired : json -> datetime -> bool.
Variable timestamp : datetime -> PrimFloat.float.
Variable fromtimestamp : json -> result datetime.

(** How [run] goes through a sequence: the answers the first part did
    not use are left to the second. *)
Definition then_run {A B : Type} (first : oauth * outcome A * list request)
    (rest : A -> list (result json) -> oauth -> oauth * outcome B * list request)
    (answers : list (result json)) : oauth * outcome B * list request :=
  let '(o1, r1, rqs1) := first in
  match r1 with
  | Returns a =>
      let '(o2, r2, rqs2) := rest a (skipn (List.length rqs1) answers) o1 in
      (o2, r2, rqs1 ++ rqs2)%list
  | Raises e => (o1, Raises e, rqs1)
  | Waits => (o1, Waits, rqs1)
  end.

Lemma run_susp_bind {A B : Type} (k : A -> coro oauth B) :
  forall (s : susp oauth A) (answers : list (result json)) (o : oauth),
    run_susp (snd (bind_susp s k o)) answers (fst (bind_susp s k o))
    = then_run (run_susp s answers o) (fun a => run (k a)) answers.
Proof.
  fix IH 1. intros s answers o.
  destruct s as [[a|e]|rq c]; simpl.
  - unfold run. destruct (k a o) as [o1 s1]; simpl.
    destruct (run_susp s1 answers o1) as [[o2 r2] rqs2]. reflexivity.
  - reflexivity.
  - destruct answers as [|answer rest]; [reflexivity|].
    specialize (IH (snd (c answer o)) rest (fst (c answer o))).
    destruct (c answer o) as [o1 s1]; simpl in *.
    destruct (bind_susp s1 k o1) as [o2 s2]; simpl in *.
    rewrite IH.
    destruct (run_susp s1 rest o1) as [[o3 r3] rqs3]; simpl.
    destruct r3 as [a|e|]; try reflexivity.
    destruct (run (k a) (skipn (List.length rqs3) rest) o3) as [[o4 r4] rqs4].
    reflexivity.
Qed.

Lemma run_bind {A B : Type} (m : coro oauth A) (k : A -> coro oauth B)
    (answers : list (result json)) (o : oauth) :
  run (bind m k) answers o = then_run (run m answers o) (fun a => run (k a)) answers.
Proof.
  unfold run at 1 2, bind.
  destruct (m o) as [o1 s1].
  pose proof (run_susp_bind k s1 answers o1) as H.
  destruct (bind_susp s1 k o1) as [o2 s2]. exact H.
Qed.

Definition catch_run {A : Type} (first : oauth * outcome A * list request)
    (catches : exn -> bool)
    (handler : exn -> list (result json) -> oauth -> oauth * outcome A * list request)
    (answers : list (result json)) : oauth * outcome A * list request :=
  let '(o1, r1, rqs1) := first in
  match r1 with
  | Raises e =>
      if catches e
      then let '(o2, r2, rqs2) := handler e (skipn (List.length rqs1) answers) o1 in
           (o2, r2, rqs1 ++ rqs2)%list
      else first
  | _ => first
  end.

Lemma run_susp_catch {A : Type} (catches : exn -> bool) (h : exn -> coro oauth A) :
  forall (s : susp oauth A) (answers : list (result json)) (o : oauth),
    run_susp (snd (catch_susp s catches h o)) answers (fst (catch_susp s catches h o))
    = catch_run (run_susp s answers o) catches (fun e => run (h e)) answers.
Proof.
  fix IH 1. intros s answers o.
  destruct s as [[a|e]|rq c]; simpl.
  - reflexivity.
  - destruct (catches e); [|reflexivity].
    unfold run. destruct (h e o) as [o1 s1]; simpl.
    destruct (run_susp s1 answers o1) as [[o2 r2] rqs2]. reflexivity.
  - destruct answers as [|answer rest]; [reflexivity|].
    specialize (IH (snd (c answer o)) rest (fst (c answer o))).
    destruct (c answer o) as [o1 s1]; simpl in *.
    destruct (catch_susp s1 catches h o1) as [o2 s2]; simpl in *.
    rewrite IH.
    destruct (run_susp s1 rest o1) as [[o3 r3] rqs3]; simpl.
    destruct r3 as [a|e|]; try reflexivity.
    destruct (catches e); [|reflexivity].
    destruct (run (h e) (skipn (List.length rqs3) rest) o3) as [[o4 r4] rqs4].
    reflexivity.
Qed.

Lemma run_try_except {A : Type} (m : coro oauth A) (catches : exn -> bool)
    (h : exn -> coro oauth A) (answers : list (result json)) (o : oauth) :
  run (try_except m catches h) answers o
  = catch_run (run m answers o) catches (fun e => run (h e)) answers.
Proof.
  unfold run at 1 2, try_except.
  destruct (m o) as [o1 s1].
  pose proof (run_susp_catch catches h s1 answers o1) as H.
  destruct (catch_susp s1 catches h o1) as [o2 s2]. exact H.
Qed.

Abbreviation load := (Auth.load fromtimestamp).
Abbreviation save := (Auth.save timestamp).
Abbreviation manual_authentication := (Auth.manual_authentication clock timestamp).
Abbreviation refresh_access_token := (Auth.refresh_access_token timestamp).
Abbreviation reload := (Auth.reload clock is_expired timestamp fromtimestamp).
Abbreviation renew := (Auth.renew clock is_expired timestamp).
Abbreviation check_authentication :=
  (Auth.check_authentication clock is_expired timestamp fromtimestamp).

(** The manager's [created_timestamp]. *)
Definition stamp (o : oauth) : datetime := created_timestamp (token_metadata o).

(** [t] is what [load] reads as [created_timestamp] from the store. *)
Definition stored_stamp (s : store) (t : datetime) : Prop :=
  exists (record : text) (data stamp : json),
    cell s = Some record
    /\ loads record = Ret data
    /\ getitem_str data "created_timestamp" = Ret stamp
    /\ fromtimestamp stamp = Ret t.

(** [t] is the time at which a manual authorization issued the
    credential. *)
Definition issued_at (rqs : list request) (t : datetime) : Prop :=
  In FetchToken rqs /\ exists n : nat, t = clock n.

Ltac crunch :=
  repeat (simpl in *; try discriminate;
          match goal with
          | H : (_, _) = (_, _) |- _ => inversion H; subst; clear H
          | H : Ret _ = Ret _ |- _ => inversion H; subst; clear H
          | H : context [match ?x with _ => _ end] |- _ => destruct x eqn:?
          end).

Lemma save_frame (answers : list (result json)) (o o' : oauth)
    (r : outcome unit) (rqs : list request) :
  run save answers o = (o', r, rqs) ->
  rqs = [] /\ session_token o' = session_token o
  /\ token_metadata o' = token_metadata o /\ ticks o' = ticks o.
Proof.
  unfold run, Auth.save, Auth.bind, Auth.read, Auth.lift, Auth.update,
    connect_db, redis_set.
  intros H. crunch; auto.
Qed.

Lemma manual_authentication_stamp (answers : list (result json)) (o o' : oauth)
    (r : outcome unit) (rqs : list request) :
  run manual_authentication answers o = (o', r, rqs) ->
  stamp o' = stamp o \/ issued_at rqs (stamp o').
Proof.
  unfold run, Auth.manual_authentication, Auth.save, Auth.bind, Auth.read,
    Auth.lift, Auth.update, Auth.await, Auth.now, connect_db, redis_set,
    stamp, issued_at.
  intros H. crunch; auto; right; split; auto; eexists; reflexivity.
Qed.

Lemma refresh_access_token_frame (answers : list (result json)) (o o' : oauth)
    (r : outcome unit) (rqs : list request) :
  run refresh_access_token answers o = (o', r, rqs) ->
  stamp o' = stamp o.
Proof.
  unfold run, Auth.refresh_access_token, Auth.save, Auth.bind, Auth.read,
    Auth.lift, Auth.update, Auth.await, connect_db, redis_set, stamp.
  intros H. crunch; auto.
Qed.

Lemma reload_stamp (answers : list (result json)) (o o' : oauth)
    (r : outcome unit) (rqs : list request) :
  run reload answers o = (o', r, rqs) ->
  stamp o' = stamp o \/ stored_stamp (redis o) (stamp o') \/ issued_at rqs (stamp o').
Proof.
  unfold run, Auth.reload, Auth.load, Auth.token_missing_or_expired,
    Auth.token_is_expired, Auth.try_except, Auth.manual_authentication,
    Auth.save, Auth.bind, Auth.read, Auth.raise, Auth.ret,
    Auth.lift, Auth.update, Auth.await, Auth.now, connect_db, redis_get, redis_set,
    stamp, issued_at, stored_stamp.
  intros H. crunch; auto;
    try (right; right; split; auto; eexists; reflexivity);
    try (right; left; repeat eexists; eassumption).
Qed.

Lemma renew_stamp (answers : list (result json)) (o o' : oauth)
    (r : outcome unit) (rqs : list request) :
  run renew answers o = (o', r, rqs) ->
  stamp o' = stamp o \/ issued_at rqs (stamp o').
Proof.
  unfold run, Auth.renew, Auth.refresh_access_token,
    Auth.token_is_expired, Auth.try_except, Auth.manual_authentication,
    Auth.save, Auth.bind, Auth.read, Auth.raise, Auth.ret,
    Auth.lift, Auth.update, Auth.await, Auth.now, connect_db, redis_get, redis_set,
    stamp, issued_at.
  intros H. crunch; auto; right; split; auto; eexists; reflexivity.
Qed.

Lemma issued_at_app (rqs1 rqs2 : list request) (t : datetime) :
  issued_at rqs1 t \/ issued_at rqs2 t -> issued_at (rqs1 ++ rqs2) t.
Proof.
  unfold issued_at. intros [[Hin Hn]|[Hin Hn]]; split; auto using in_or_app.
Qed.

Lemma check_authentication_stamp (answers : list (result json)) (o o' : oauth)
    (r : outcome unit) (rqs : list request) :
  run check_authentication answers o = (o', r, rqs) ->
  stamp o' = stamp o \/ stored_stamp (redis o) (stamp o') \/ issued_at rqs (stamp o').
Proof.
  unfold Auth.check_authentication. rewrite run_bind. unfold then_run.
  destruct (run reload answers o) as [[o1 r1] rqs1] eqn:Hreload.
  apply reload_stamp in Hreload.
  destruct r1 as [[]|e|].
  - destruct (run renew (skipn (List.length rqs1) answers) o1) as [[o2 r2] rqs2] eqn:Hrenew.
    apply renew_stamp in Hrenew.
    intros H. inversion H; subst; clear H.
    destruct Hrenew as [Hsame|Hissued].
    + rewrite Hsame. destruct Hreload as [H|[H|H]]; auto.
      right; right. apply issued_at_app; auto.
    + right; right. apply issued_at_app; auto.
  - intros H. inversion H; subst; clear H. assumption.
  - intros H. inversion H; subst; clear H. assumption.
Qed.

(** C9: a refresh that returns has replaced the token in the session
    and in the manager and persisted it under the manager's
    [created_timestamp], which it leaves as it was, like the clock
    count and the log; and whatever [check_authentication] does, the
    [created_timestamp] it leaves is the one it found, the one [load]
    read from the store, or the time of a manual authorization. *)
Theorem refresh_keeps_created_timestamp :
  (forall (answers : list (result json)) (o o' : oauth) (rqs : list request),
      run refresh_access_token answers o = (o', Returns tt, rqs) ->
      exists tok : json,
        hd_error answers = Some (Ret tok)
        /\ stamp o' = stamp o
        /\ token (token_metadata o') = tok
        /\ session_token o' = tok
        /\ cell (redis o')
           = Some (dumps (JObj [("created_timestamp", JFloat (timestamp (stamp o)));
                                ("token", tok)]))
        /\ db (redis o') = db (redis o)
        /\ ticks o' = ticks o
        /\ log o' = log o)
  /\ (forall (answers : list (result json)) (o o' : oauth) (r : outcome unit)
         (rqs : list request),
        run check_authentication answers o = (o', r, rqs) ->
        stamp o' = stamp o
        \/ stored_stamp (redis o) (stamp o')
        \/ issued_at rqs (stamp o')).
Proof.
  split; [|exact check_authentication_stamp].
  unfold run, Auth.refresh_access_token, Auth.save, Auth.bind, Auth.read,
    Auth.lift, Auth.update, Auth.await, connect_db, redis_set, stamp.
  intros answers o o' rqs H. crunch; eexists; repeat split; congruence.
Qed.

Lemma load_failures (o : oauth) :
  (db (redis o) = Online -> cell (redis o) = None ->
   load o = (o, Finished (Raise TypeError)))
  /\ (db (redis o) = NoClient -> load o = (o, Finished (Raise ValueError)))
  /\ (db (redis o) = Unreachable ->
      load o = (o, Finished (Raise RedisConnectionError))).
Proof.
  unfold Auth.load, Auth.bind, Auth.read, Auth.lift, Auth.raise, connect_db, redis_get.
  split; [|split].
  - intros Hdb Hcell. simpl. rewrite Hdb. simpl. rewrite Hdb, Hcell. reflexivity.
  - intros Hdb. simpl. rewrite Hdb. reflexivity.
  - intros Hdb. simpl. rewrite Hdb. simpl. rewrite Hdb. reflexivity.
Qed.

(** The first thing [manual_authentication] awaits is the interactive
    authorization. *)
Lemma manual_authentication_asks (answers : list (result json)) (o : oauth) :
  exists (o' : oauth) (r : outcome unit) (rqs : list request),
    run manual_authentication answers o = (o', r, FetchToken :: rqs).
Proof.
  unfold run, Auth.manual_authentication, Auth.save, Auth.bind, Auth.read,
    Auth.lift, Auth.update, Auth.await, Auth.now, connect_db, redis_set.
  simpl. destruct answers as [|answer rest]; simpl; [eauto|].
  repeat match goal with
         | |- context [match ?x with _ => _ end] => destruct x; simpl
         end; eauto.
Qed.

(** C8: [load] raises [TypeError] when the store has no record under the
    key, [ValueError] when there is no client for the store, and lets
    the client's [ConnectionError] through when the server cannot be
    reached, in each case leaving the session as it was; a caller of
    [check_authentication] with no valid token in memory is taken to
    the manual authorization in the first case, and gets [ValueError]
    or the [ConnectionError] raised, with nothing asked of the operator
    or the provider, in the other two. *)
Theorem load_not_found_or_unreachable (o : oauth) :
  (db (redis o) = Online -> cell (redis o) = None ->
   load o = (o, Finished (Raise TypeError)))
  /\ (db (redis o) = NoClient -> load o = (o, Finished (Raise ValueError)))
  /\ (db (redis o) = Unreachable ->
      load o = (o, Finished (Raise RedisConnectionError)))
  /\ (forall (o1 : oauth) (answers : list (result json)),
        Auth.token_missing_or_expired clock is_expired o = (o1, Finished (Ret true)) ->
        (db (redis o) = Online -> cell (redis o) = None ->
         exists (o' : oauth) (r : outcome unit) (rqs : list request),
           run check_authentication answers o = (o', r, FetchToken :: rqs))
        /\ (db (redis o) = NoClient ->
            run check_authentication answers o = (o1, Raises ValueError, []))
        /\ (db (redis o) = Unreachable ->
            run check_authentication answers o = (o1, Raises RedisConnectionError, []))).
Proof.
  destruct (load_failures o) as [Hnone [Hclient Hserver]].
  split; [assumption | split; [assumption | split; [assumption|]]].
  intros o1 answers Hstale.
  assert (Hredis : redis o1 = redis o).
  { unfold Auth.token_missing_or_expired, Auth.token_is_expired, Auth.bind,
      Auth.read, Auth.ret, Auth.raise, Auth.now in Hstale.
    crunch; reflexivity. }
  assert (Hrun : run (Auth.token_missing_or_expired clock is_expired) answers o
                 = (o1, Returns true, [])).
  { unfold run. rewrite Hstale. reflexivity. }
  destruct (load_failures o1) as [Hnone1 [Hclient1 Hserver1]].
  rewrite Hredis in *.
  unfold Auth.check_authentication, Auth.reload.
  rewrite !run_bind, Hrun. unfold then_run. cbn [skipn List.length].
  rewrite run_try_except. unfold catch_run.
  split; [|split].
  - intros Hdb Hcell.
    assert (Hload : run load answers o1 = (o1, Raises TypeError, []))
      by (unfold run; rewrite (Hnone1 Hdb Hcell); reflexivity).
    rewrite Hload.
    cbn [is_TypeError is_ValueError orb skipn List.length app].
    destruct (manual_authentication_asks answers o1) as [o2 [r2 [rqs2 Hask]]].
    rewrite Hask. destruct r2 as [[]|e|]; eauto.
    destruct (run renew _ o2) as [[o3 r3] rqs3].
    cbn [app]. eauto.
  - intros Hdb.
    assert (Hload : run load answers o1 = (o1, Raises ValueError, []))
      by (unfold run; rewrite (Hclient1 Hdb); reflexivity).
    rewrite Hload. reflexivity.
  - intros Hdb.
    assert (Hload : run load answers o1 = (o1, Raises RedisConnectionError, []))
      by (unfold run; rewrite (Hserver1 Hdb); reflexivity).
    rewrite Hload. reflexivity.
Qed.

Section ExpiredAccessToken.

(** A store that holds a record whose access token has expired and whose
    refresh token has not. *)
Variable record : text.
Variables data stamp0 rt : json.
Variable fields : list (string * json).
Variable created : datetime.

Hypothesis record_loads : loads record = Ret data.
Hypothesis record_stamp : getitem_str data "created_timestamp" = Ret stamp0.
Hypothesis record_created : fromtimestamp stamp0 = Ret created.
Hypothesis record_token : getitem_str data "token" = Ret (JObj fields).
Hypothesis record_refresh : getitem_str (JObj fields) "refresh_token" = Ret rt.
Hypothesis access_expired :
  forall n : nat, is_expired (JObj fields) (clock n) = true.
Hypothesis refresh_valid :
  forall n : nat,
    is_refresh_token_expired (mk_manager (JObj fields) created) (clock n) = Ret false.

(** The session holds no token, or the expired one, and the store is
    reachable and holds the record. *)
Definition needs_refresh (o : oauth) : Prop :=
  (session_token o = JNull \/ session_token o = JObj fields)
  /\ redis o = mk_store Online (Some record).

(** A caller that enters [check_authentication] then is suspended on a
    request to the refresh endpoint, and leaves the session in need of a
    refresh as before. *)
Lemma caller_suspends_on_refresh (o : oauth) :
  needs_refresh o ->
  exists (o' : oauth) (k : result json -> oauth -> oauth * susp oauth unit),
    check_authentication o = (o', Awaiting (Refresh rt) k)
    /\ needs_refresh o'.
Proof.
  intros [Htoken Hredis].
  unfold Auth.check_authentication, Auth.reload, Auth.renew, Auth.load,
    Auth.token_missing_or_expired, Auth.token_is_expired, Auth.try_except,
    Auth.refresh_access_token, Auth.bind, Auth.read, Auth.raise, Auth.ret,
    Auth.lift, Auth.update, Auth.await, Auth.now, connect_db, redis_get,
    needs_refresh.
  destruct Htoken as [Htoken|Htoken]; rewrite Htoken;
    cbn -[is_refresh_token_expired getitem_str]; rewrite ?access_expired;
    cbn -[is_refresh_token_expired getitem_str]; rewrite Hredis;
    cbn -[is_refresh_token_expired getitem_str];
    rewrite record_loads, record_stamp, record_created, record_token;
    cbn -[is_refresh_token_expired getitem_str]; rewrite access_expired;
    cbn -[is_refresh_token_expired getitem_str]; rewrite refresh_valid;
    cbn -[is_refresh_token_expired getitem_str]; rewrite record_refresh;
    cbn -[is_refresh_token_expired getitem_str]; eauto 10.
Qed.

Lemma loop_step_call (l : loop) :
  needs_refresh (shared l) ->
  needs_refresh (shared (loop_step clock is_expired timestamp fromtimestamp l Call))
  /\ requests (loop_step clock is_expired timestamp fromtimestamp l Call)
     = (requests l ++ [Refresh rt])%list
  /\ observed (loop_step clock is_expired timestamp fromtimestamp l Call) = observed l.
Proof.
  intros Hneeds. unfold loop_step.
  destruct (caller_suspends_on_refresh (shared l) Hneeds) as [o' [k [Hcall Hneeds']]].
  rewrite Hcall. simpl. auto.
Qed.

Lemma calls_refresh_each (n : nat) (l : loop) :
  needs_refresh (shared l) ->
  requests (fold_left (loop_step clock is_expired timestamp fromtimestamp)
                      (repeat Call n) l)
  = (requests l ++ repeat (Refresh rt) n)%list.
Proof.
  revert l. induction n as [|n IH]; intros l Hneeds; cbn [repeat fold_left].
  - now rewrite List.app_nil_r.
  - destruct (loop_step_call l Hneeds) as [Hneeds' [Hrqs _]].
    rewrite IH by assumption. rewrite Hrqs. now rewrite <- app_assoc.
Qed.

(** C7 on the code: [n] callers that enter [check_authentication] while
    the access token is expired, each before any refresh has been
    answered, send [n] requests to the refresh endpoint. *)
Theorem concurrent_callers_each_refresh (n : nat) (o : oauth) :
  needs_refresh o ->
  requests (run_loop clock is_expired timestamp fromtimestamp (repeat Call n) o)
  = repeat (Refresh rt) n
  /\ refresh_calls (run_loop clock is_expired timestamp fromtimestamp (repeat Call n) o)
     = n.
Proof.
  intros Hneeds. unfold run_loop, refresh_calls.
  rewrite calls_refresh_each by assumption. simpl. split; [reflexivity|].
  clear. induction n as [|n IH]; simpl; [reflexivity | now rewrite IH].
Qed.

End ExpiredAccessToken.

End TokenLifecycle.

(** ** An environment for the examples *)

Section Examples.

Import Json Datetime Auth.
Local Open Scope string_scope.
Local Open Scope Z_scope.

(** 1970-01-01T00:00:00Z, day 719163 of the calendar. *)
Definition unix_epoch : datetime := 719162 * 86400 * 1000000.

(** A clock that reads a day after [issued]; the readings of one call
    lie too close together to tell apart. *)
Definition wall_clock (n : nat) : datetime := issued + days 1.

(** The OAuth library's check: a token whose [expires_at], in seconds
    since the Unix epoch, lies before the clock's reading. *)
Definition expires_at_passed (tok : json) (now : datetime) : bool :=
  match getitem_str tok "expires_at" with
  | Ret (JInt seconds) => unix_epoch + seconds * 1000000 <? now
  | _ => false
  end.

Fixpoint float_of_positive (p : positive) : PrimFloat.float :=
  match p with
  | xH => PrimFloat.one
  | xO q => PrimFloat.mul PrimFloat.two (float_of_positive q)
  | xI q => PrimFloat.add (PrimFloat.mul PrimFloat.two (float_of_positive q))
                          PrimFloat.one
  end.

Definition float_of_Z (z : Z) : PrimFloat.float :=
  match z with
  | Z0 => PrimFloat.zero
  | Zpos p => float_of_positive p
  | Zneg p => PrimFloat.opp (float_of_positive p)
  end.

(** Seconds since the Unix epoch as a float. *)
Definition unix_seconds (t : datetime) : PrimFloat.float :=
  PrimFloat.div (float_of_Z (t - unix_epoch)) (float_of_Z 1000000).

(** A reader of timestamps that takes whole seconds only. *)
Definition of_unix_seconds (x : json) : result datetime :=
  match x with
  | JInt seconds => Ret (unix_epoch + seconds * 1000000)
  | JFloat _ => Raise (OtherError "NotImplementedError")
  | _ => Raise TypeError
  end.

(** A credential issued at [issued] (1730419200 in Unix seconds) whose
    access token ran out half an hour later. *)
Definition stale_token : list (string * json) :=
  [("access_token", JStr "access-0"); ("refresh_token", JStr "refresh-0");
   ("expires_in", JInt 1800); ("expires_at", JInt 1730421000)].

Definition stale_record : text :=
  Document (JObj [("created_timestamp", JInt 1730419200);
                  ("token", JObj stale_token)]).

Definition token_from_provider (name : string) : json :=
  JObj [("access_token", JStr name); ("refresh_token", JStr "refresh-0");
        ("expires_in", JInt 1800); ("expires_at", JInt 1730509200)].

(** A process that has just started, over a store that holds the stale
    credential; over an empty store; without a client; and with the
    server down. *)
Definition started : oauth :=
  Auth.init (wall_clock 0) (mk_store Online (Some stale_record)).

Definition started_empty : oauth := Auth.init (wall_clock 0) (mk_store Online None).

Definition started_no_client : oauth :=
  Auth.init (wall_clock 0) (mk_store NoClient None).

Definition started_offline : oauth :=
  Auth.init (wall_clock 0) (mk_store Unreachable (Some stale_record)).

Lemma wall_clock_after_expiry (n : nat) :
  expires_at_passed (JObj stale_token) (wall_clock n) = true.
Proof. vm_compute; reflexivity. Qed.

Lemma wall_clock_within_week (n : nat) :
  is_refresh_token_expired (mk_manager (JObj stale_token) issued) (wall_clock n)
  = Ret false.
Proof. vm_compute; reflexivity. Qed.

Lemma started_needs_refresh : needs_refresh stale_record stale_token started.
Proof. split; [left|]; reflexivity. Qed.

Lemma concurrent_callers_each_refresh_witness :
  needs_refresh stale_record stale_token started
  /\ refresh_calls
       (run_loop wall_clock expires_at_passed unix_seconds of_unix_seconds
                 (repeat Call 2) started)
     = 2%nat.
Proof.
  split; [exact started_needs_refresh|].
  apply (concurrent_callers_each_refresh wall_clock expires_at_passed unix_seconds
           of_unix_seconds stale_record
           (JObj [("created_timestamp", JInt 1730419200); ("token", JObj stale_token)])
           (JInt 1730419200) (JStr "refresh-0") stale_token issued).
  - reflexivity.
  - reflexivity.
  - reflexivity.
  - reflexivity.
  - reflexivity.
  - intros n. apply wall_clock_after_expiry.
  - intros n. apply wall_clock_within_week.
  - exact started_needs_refresh.
Defined.

(** Two callers enter before the first refresh is answered; the
    provider answers each: two refresh requests have gone out, both
    with the same refresh token, and the two callers leave with
    different credentials. *)
Definition two_callers : loop :=
  run_loop wall_clock expires_at_passed unix_seconds of_unix_seconds
    [Call; Call;
     Answer 0 (Ret (token_from_provider "access-1"));
     Answer 1 (Ret (token_from_provider "access-2"))]
    started.

Example single_flight_violated :
  requests two_callers = [Refresh (JStr "refresh-0"); Refresh (JStr "refresh-0")]
  /\ refresh_calls two_callers = 2%nat
  /\ observed two_callers
     = [token_from_provider "access-1"; token_from_provider "access-2"].
Proof. repeat (split; [vm_compute; reflexivity|]). vm_compute; reflexivity. Qed.

Definition check_authentication_now
  : list (result json) -> oauth -> oauth * outcome unit * list request :=
  run (Auth.check_authentication wall_clock expires_at_passed unix_seconds
         of_unix_seconds).

Lemma load_not_found_or_unreachable_witness :
  (Auth.token_missing_or_expired wall_clock expires_at_passed started_empty
   = (started_empty, Finished (Ret true))
   /\ db (redis started_empty) = Online
   /\ cell (redis started_empty) = None)
  /\ exists (o' : oauth) (r : outcome unit) (rqs : list request),
      check_authentication_now [] started_empty = (o', r, FetchToken :: rqs).
Proof.
  split; [repeat split|].
  apply (proj1 (proj2 (proj2 (proj2
           (load_not_found_or_unreachable wall_clock expires_at_passed unix_seconds
              of_unix_seconds started_empty)))
           started_empty [] eq_refl)); reflexivity.
Defined.

(** Over an empty store the caller waits for the operator; without a
    client, or with the server down, the call raises and nothing has
    been asked of anyone. *)
Example check_authentication_by_store :
  check_authentication_now [] started_empty
  = (Auth.logger "This was received"
       (Auth.logger "Visit URL to authorize" started_empty),
     Waits, [FetchToken])
  /\ check_authentication_now [] started_no_client
     = (started_no_client, Raises ValueError, [])
  /\ check_authentication_now [] started_offline
     = (started_offline, Raises RedisConnectionError, []).
Proof. repeat (split; [vm_compute; reflexivity|]). vm_compute; reflexivity. Qed.

(** The session once the stale credential has been loaded. *)
Definition loaded : oauth :=
  mk_oauth (JObj stale_token) (mk_manager (JObj stale_token) issued)
           (mk_store Online (Some stale_record)) 0 [].

Definition refreshed : oauth :=
  fst (fst (run (Auth.refresh_access_token unix_seconds)
                [Ret (token_from_provider "access-1")] loaded)).

Lemma refresh_keeps_created_timestamp_witness :
  run (Auth.refresh_access_token unix_seconds)
      [Ret (token_from_provider "access-1")] loaded
  = (refreshed, Returns tt, [Refresh (JStr "refresh-0")])
  /\ stamp refreshed = issued
  /\ session_token refreshed = token_from_provider "access-1".
Proof.
  assert (H : run (Auth.refresh_access_token unix_seconds)
                  [Ret (token_from_provider "access-1")] loaded
              = (refreshed, Returns tt, [Refresh (JStr "refresh-0")]))
    by (vm_compute; reflexivity).
  split; [exact H|].
  destruct (proj1 (refresh_keeps_created_timestamp wall_clock expires_at_passed
                     unix_seconds of_unix_seconds) _ _ _ _ H)
    as [tok [Hhd [Hstamp [_ [Htok _]]]]].
  split; [exact Hstamp|].
  injection Hhd as <-. exact Htok.
Defined.

(** A lone caller over the stale credential: the manager is loaded, one
    refresh is requested, and the new token is stored under the
    [created_timestamp] that was loaded. *)
Example check_authentication_refreshes :
  let '(o', r, rqs) :=
    check_authentication_now [Ret (token_from_provider "access-1")] started in
  r = Returns tt
  /\ rqs = [Refresh (JStr "refresh-0")]
  /\ stamp o' = issued
  /\ session_token o' = token_from_provider "access-1"
  /\ cell (redis o')
     = Some (Document (JObj [("created_timestamp", JFloat (unix_seconds issued));
                             ("token", token_from_provider "access-1")])).
Proof. vm_compute. repeat split. Qed.

End Examples.

(** * Further properties *)

(** * Further properties *)

(** ** The option symbol transform: errors, width, fixed points *)

Section OptionSymbolEdges.

Import PyStr Utils.
Local Open Scope string_scope.

Lemma length_append (a b : string) :
  String.length (a ++ b) = String.length a + String.length b.
Proof. induction a as [|c a IH]; simpl; [reflexivity | now rewrite IH]. Qed.

Lemma length_replicate (n : nat) (c : ascii) : String.length (replicate n c) = n.
Proof. induction n as [|n IH]; simpl; [reflexivity | now rewrite IH]. Qed.

Lemma length_ljust (width : nat) (fill : ascii) (s : string) :
  String.length (ljust width fill s) = Nat.max width (String.length s).
Proof. unfold ljust. rewrite length_append, length_replicate. lia. Qed.

Lemma ljust_long (width : nat) (fill : ascii) (s : string) :
  width <= String.length s -> ljust width fill s = s.
Proof.
  intros H. unfold ljust. replace (width - String.length s) with 0 by lia.
  simpl. induction s as [|c s IH]; simpl; [reflexivity|].
  f_equal. clear. induction s; simpl; [reflexivity | now f_equal].
Qed.

Lemma ljust_ljust (width : nat) (fill : ascii) (s : string) :
  ljust width fill (ljust width fill s) = ljust width fill s.
Proof. apply ljust_long. rewrite length_ljust. lia. Qed.

Lemma get_None (s : string) (n : nat) :
  String.get n s = None <-> String.length s <= n.
Proof.
  revert n. induction s as [|c s IH]; intros n; simpl.
  - destruct n; split; intros; try reflexivity; lia.
  - destruct n as [|n]; [split; [discriminate | lia]|].
    rewrite IH. lia.
Qed.

Lemma all_chars_append (p : ascii -> bool) (a b : string) :
  all_chars p (a ++ b) = all_chars p a && all_chars p b.
Proof.
  induction a as [|c a IH]; simpl; [reflexivity|]. now rewrite IH, andb_assoc.
Qed.

Lemma all_chars_replicate (p : ascii -> bool) (n : nat) (c : ascii) :
  p c = true -> all_chars p (replicate n c) = true.
Proof. intros H. induction n; simpl; [reflexivity | now rewrite H]. Qed.

(** [rest] is empty or begins with a digit: where the scan for the root
    stops. *)
Definition at_digit (rest : string) : bool :=
  match rest with
  | EmptyString => true
  | String c _ => isdigit c
  end.

Lemma while_not_digit_at_digit (rest : string) (i : nat) :
  at_digit rest = true -> while_not_digit rest i = i.
Proof. destruct rest as [|c rest]; simpl; [reflexivity | now intros ->]. Qed.

(** X1: the transform raises exactly when fewer than seven characters
    follow the digit-free root (no character is left for the option
    type), and then it raises [IndexError]; whatever follows the type
    character, even nothing, is accepted. *)
Theorem parse_option_string_index_error (root rest : string) :
  all_chars not_digit root = true ->
  at_digit rest = true ->
  (parse_option_string (root ++ rest) = Raise IndexError
   <-> String.length rest < 7)
  /\ (7 <= String.length rest ->
      exists out : string, parse_option_string (root ++ rest) = Ret out).
Proof.
  intros Hroot Hrest.
  unfold parse_option_string.
  rewrite while_not_digit_root by assumption.
  rewrite while_not_digit_at_digit by assumption. simpl Nat.add.
  unfold getitem. rewrite get_append.
  destruct (String.get 6 rest) as [c|] eqn:Hget.
  - assert (Hlen : ~ String.length rest <= 6)
      by (intros H; apply get_None in H; congruence).
    simpl. split; [split; [discriminate | lia] | eauto].
  - apply get_None in Hget. simpl. split; [split; [lia | reflexivity] | lia].
Qed.

Lemma parse_option_string_index_error_witness :
  (all_chars not_digit "SPY" = true /\ at_digit "2411" = true)
  /\ parse_option_string ("SPY" ++ "2411") = Raise IndexError.
Proof.
  split; [split; reflexivity|].
  apply (proj1 (parse_option_string_index_error "SPY" "2411" eq_refl eq_refl)).
  simpl; lia.
Defined.

(** X2: on an identifier with a root of at most six characters and a
    strike of at most eight, the wire symbol is 21 characters long; a
    longer root or strike is not cut, the symbol grows with it. *)
Theorem parse_option_string_width (root date : string) (option_type : ascii)
    (strike out : string) :
  all_chars not_digit root = true ->
  String.length date = 6 ->
  all_chars isdigit date = true ->
  parse_option_string (root ++ date ++ String option_type strike) = Ret out ->
  String.length out
  = Nat.max 6 (String.length root) + 7 + Nat.max 8 (String.length strike)
  /\ (String.length root <= 6 -> String.length strike <= 8 ->
      String.length out = 21).
Proof.
  intros Hroot Hlen Hdate Hout.
  rewrite parse_option_string_layout in Hout by assumption.
  injection Hout as <-.
  rewrite !length_append. cbn [String.length].
  rewrite !length_ljust, Hlen. lia.
Qed.

Lemma parse_option_string_width_witness :
  (all_chars not_digit "AAPL" = true
   /\ String.length "241115" = 6
   /\ all_chars isdigit "241115" = true
   /\ parse_option_string ("AAPL" ++ "241115" ++ String "C" "00200")
      = Ret "AAPL  241115C00200000")
  /\ String.length "AAPL  241115C00200000" = 21.
Proof.
  split; [repeat split|].
  apply (proj2 (parse_option_string_width "AAPL" "241115" "C"%char "00200"
                  "AAPL  241115C00200000" eq_refl eq_refl eq_refl eq_refl));
    simpl; lia.
Defined.

(** X3: a symbol that is already in the wire form passes through
    unchanged: transforming the result of a transform gives the same
    symbol. *)
Theorem parse_option_string_idempotent (root date : string) (option_type : ascii)
    (strike out : string) :
  all_chars not_digit root = true ->
  String.length date = 6 ->
  all_chars isdigit date = true ->
  parse_option_string (root ++ date ++ String option_type strike) = Ret out ->
  parse_option_string out = Ret out.
Proof.
  intros Hroot Hlen Hdate Hout.
  rewrite parse_option_string_layout in Hout by assumption.
  injection Hout as <-.
  rewrite parse_option_string_layout; try assumption.
  - now rewrite !ljust_ljust.
  - unfold ljust. rewrite all_chars_append, Hroot.
    now rewrite all_chars_replicate.
Qed.

Lemma parse_option_string_idempotent_witness :
  (all_chars not_digit "GOOG" = true
   /\ String.length "250101" = 6
   /\ all_chars isdigit "250101" = true
   /\ parse_option_string ("GOOG" ++ "250101" ++ String "P" "01500")
      = Ret "GOOG  250101P01500000")
  /\ parse_option_string "GOOG  250101P01500000" = Ret "GOOG  250101P01500000".
Proof.
  split; [repeat split|].
  apply (parse_option_string_idempotent "GOOG" "250101" "P"%char "01500"
           "GOOG  250101P01500000"); reflexivity.
Defined.

End OptionSymbolEdges.

(** ** Subscriptions: what a failed call leaves behind *)

Section SubscriptionEdges.

Import Json Socket Streamer.
Local Open Scope string_scope.

Lemma parse_option_string_raises (input : string) (e : exn) :
  Utils.parse_option_string input = Raise e -> e = IndexError.
Proof.
  unfold Utils.parse_option_string, PyStr.getitem.
  destruct (String.get _ input); simpl; [discriminate|].
  intros H. now injection H.
Qed.

Lemma parse_tickers_raises (tickers : list string) :
  (exists ticker, In ticker tickers
                  /\ Utils.parse_option_string ticker = Raise IndexError) ->
  Services.parse_tickers tickers = Raise IndexError.
Proof.
  induction tickers as [|t tickers IH]; intros [ticker [Hin Hparse]];
    [contradiction|].
  simpl. destruct (Utils.parse_option_string t) as [parsed|e] eqn:Ht.
  - destruct Hin as [->|Hin]; [congruence|].
    simpl. rewrite IH by eauto. reflexivity.
  - apply parse_option_string_raises in Ht. now subst.
Qed.

Lemma parse_tickers_returns (tickers : list string) :
  (forall ticker, In ticker tickers ->
                  exists out, Utils.parse_option_string ticker = Ret out) ->
  exists parsed : list string,
    Services.parse_tickers tickers = Ret parsed
    /\ List.length parsed = List.length tickers.
Proof.
  induction tickers as [|t tickers IH]; intros Hall; simpl.
  - exists []. auto.
  - destruct (Hall t (or_introl eq_refl)) as [out Hout]. rewrite Hout. simpl.
    destruct IH as [parsed [Hparsed Hlen]]; [intros; apply Hall; now right|].
    rewrite Hparsed. simpl. exists (out :: parsed). simpl. auto.
Qed.

(** One envelope for [service] is put on the send queue, with the
    counter's value as its request id, and the counter moves on by
    one. *)
Definition enqueues_one (service : string) (c : StreamClient)
    (after : outcome unit * StreamClient) : Prop :=
  exists request : json,
    fst after = Returns tt
    /\ _request_id (snd after) = (_request_id c + 1)%Z
    /\ Queue.items (send_queue (snd after))
       = (Queue.items (send_queue c)
            ++ [dumps (JObj [("requests", JArr [request])])])%list
    /\ getitem_str request "service" = Ret (JStr service)
    /\ getitem_str request "requestid" = Ret (JStr (PyStr.str_of_int (_request_id c))).

(** X4: an option subscription is all or nothing.  When one identifier
    of the list cannot be transformed, [level_one_options_sub] and
    [options_book] raise [IndexError] and leave the session as it was:
    no request id is used and nothing is enqueued.  When every
    identifier can, each of the two enqueues one envelope for its
    service, with the counter's value as its request id, and the
    counter moves on by one. *)
Theorem options_sub_all_or_nothing (tickers : list string)
    (fields : option (list string)) (c : StreamClient) :
  ((exists ticker, In ticker tickers
                   /\ Utils.parse_option_string ticker = Raise IndexError) ->
   level_one_options_sub tickers fields c = (Raises IndexError, c)
   /\ options_book tickers fields c = (Raises IndexError, c))
  /\ ((forall ticker, In ticker tickers ->
                      exists out, Utils.parse_option_string ticker = Ret out) ->
      enqueues_one "LEVELONE_OPTIONS" c (level_one_options_sub tickers fields c)
      /\ enqueues_one "OPTIONS_BOOK" c (options_book tickers fields c)).
Proof.
  split.
  - intros Hbad. apply parse_tickers_raises in Hbad.
    unfold level_one_options_sub, options_book, Services.level_one_options_sub,
      Services.options_book, Task.bind, Task.lift.
    rewrite Hbad. simpl. auto.
  - intros Hall. destruct (parse_tickers_returns tickers Hall) as [parsed [Hparsed _]].
    unfold enqueues_one, level_one_options_sub, options_book,
      Services.level_one_options_sub, Services.options_book, Task.bind, Task.lift.
    rewrite Hparsed. simpl bind.
    split; eexists; repeat split.
Qed.

Lemma options_sub_all_or_nothing_witness :
  ((exists ticker, In ticker ["AAPL241115C00200"; "AAPL2411"]
                   /\ Utils.parse_option_string ticker = Raise IndexError)
   /\ forall ticker, In ticker ["AAPL241115C00200"] ->
                     exists out, Utils.parse_option_string ticker = Ret out)
  /\ level_one_options_sub ["AAPL241115C00200"; "AAPL2411"] None new_session
     = (Raises IndexError, new_session)
  /\ enqueues_one "OPTIONS_BOOK" new_session
                  (options_book ["AAPL241115C00200"] None new_session).
Proof.
  assert (H : exists ticker, In ticker ["AAPL241115C00200"; "AAPL2411"]
                             /\ Utils.parse_option_string ticker = Raise IndexError).
  { exists "AAPL2411". split; [right; left|]; reflexivity. }
  assert (Hall : forall ticker, In ticker ["AAPL241115C00200"] ->
                                exists out, Utils.parse_option_string ticker = Ret out).
  { intros ticker [<-|[]]. eexists. reflexivity. }
  split; [split; assumption|]. split.
  - apply (proj1 (options_sub_all_or_nothing ["AAPL241115C00200"; "AAPL2411"] None
                    new_session) H).
  - apply (proj2 (options_sub_all_or_nothing ["AAPL241115C00200"] None new_session)
             Hall).
Defined.

(** X5: [subscribe_service] on a dict that lacks one of the keys
    "service", "command" and "parameters" raises [KeyError] and enqueues
    nothing, but the request id it took first is spent: the counter has
    moved on. *)
Theorem subscribe_service_missing_key (fields : list (string * json))
    (c : StreamClient) :
  lookup "service" fields = None
  \/ lookup "command" fields = None
  \/ lookup "parameters" fields = None ->
  subscribe_service (JObj fields) c
  = (Raises KeyError, set_request_id (_request_id c + 1) c).
Proof.
  intros H.
  cbv [subscribe_service produce next_request_id
       Task.bind Task.read Task.ret Task.update Task.lift getitem_str].
  destruct (lookup "service" fields) as [service|]; [|reflexivity].
  destruct (lookup "command" fields) as [command|]; [|reflexivity].
  destruct (lookup "parameters" fields) as [params|]; [|reflexivity].
  destruct H as [H|[H|H]]; discriminate.
Qed.

Lemma subscribe_service_missing_key_witness :
  (lookup "service" [("service", JStr "NASDAQ_BOOK"); ("command", JStr "SUBS")] = None
   \/ lookup "command" [("service", JStr "NASDAQ_BOOK"); ("command", JStr "SUBS")] = None
   \/ lookup "parameters" [("service", JStr "NASDAQ_BOOK"); ("command", JStr "SUBS")]
      = None)
  /\ _request_id
       (snd (subscribe_service
               (JObj [("service", JStr "NASDAQ_BOOK"); ("command", JStr "SUBS")])
               new_session))
     = 1%Z.
Proof.
  split; [right; right; reflexivity|].
  rewrite (subscribe_service_missing_key
             [("service", JStr "NASDAQ_BOOK"); ("command", JStr "SUBS")] new_session)
    by (right; right; reflexivity).
  reflexivity.
Defined.

End SubscriptionEdges.

(** ** The login parameters and the socket *)

Section LoginEdges.

Import Json Socket Streamer.
Local Open Scope string_scope.






(** X7: when the socket cannot be opened, [connect] raises what
    [ws_client.connect] raised; the login request had been built before,
    so its request id is spent, but nothing has been enqueued and no
    arrival has been consumed. *)
Theorem connect_open_fails (c c1 : StreamClient) (params : json) (e : exn)
    (arrivals : list text) :
  _init_login_params c = (Returns params, c1) ->
  connect (Raise e) arrivals c
  = (Raises e, set_request_id (_request_id c1 + 1) c1).
Proof.
  intros Hinit.
  unfold connect, send_login, Task.bind. rewrite Hinit. reflexivity.
Qed.

Lemma connect_open_fails_witness :
  _init_login_params new_session
  = (Returns (JObj [("Authorization", JStr "access");
                    ("SchwabClientChannel", JStr "N9");
                    ("SchwabClientFunctionId", JStr "APIAPP")]),
     snd (_init_login_params new_session))
  /\ fst (connect (Raise (OtherError "OSError")) [accepted] new_session)
     = Raises (OtherError "OSError")
  /\ _request_id (snd (connect (Raise (OtherError "OSError")) [accepted] new_session))
     = 1%Z
  /\ Queue.items
       (send_queue (snd (connect (Raise (OtherError "OSError")) [accepted] new_session)))
     = [].
Proof.
  assert (H : _init_login_params new_session
              = (Returns (JObj [("Authorization", JStr "access");
                                ("SchwabClientChannel", JStr "N9");
                                ("SchwabClientFunctionId", JStr "APIAPP")]),
                 snd (_init_login_params new_session)))
    by (vm_compute; reflexivity).
  split; [exact H|].
  rewrite (connect_open_fails new_session _ _ (OtherError "OSError") [accepted] H).
  repeat split.
Defined.

End LoginEdges.

(** ** The queues: order inbound, accounting outbound *)

Section QueueEdges.

Import Json Socket Streamer.
Local Open Scope string_scope.

(** What a caller of [consume] gets for a text: the value of a JSON
    document, [None] for a text that is not one, the exception of
    [json.loads] for a text it gives up on. *)
Definition consumed (msg : text) : outcome json :=
  match msg with
  | Document v => Returns v
  | Garbage _ => Returns JNull
  | Unloadable why _ => Raises (load_failure_exn why)
  end.

(** A text the login poll passes over: [consume] returns a falsy value
    for it. *)
Definition skipped_by_poll (msg : text) : Prop :=
  exists v : json, consumed msg = Returns v /\ truthy v = false.

(** The receiver loop putting the frames it received, in order. *)
Definition receive_all (msgs : list text) (c : StreamClient) : StreamClient :=
  fold_left (fun c msg => _recv_msg false (Received msg) c) msgs c.

(** [n] calls of [consume] in a row, with what each returned or
    raised. *)
Fixpoint consume_times (n : nat) (c : StreamClient)
  : list (outcome json) * StreamClient :=
  match n with
  | O => ([], c)
  | S n' =>
      let (r, c') := consume c in
      let (rs, c'') := consume_times n' c' in
      (r :: rs, c'')
  end.

Lemma load_failure_not_decode_error (why : load_failure) :
  is_JSONDecodeError (load_failure_exn why) = false.
Proof. destruct why; reflexivity. Qed.

Lemma consume_head (c : StreamClient) (msg : text) (rest : list text) :
  Queue.well_formed (receive_queue c) ->
  Queue.items (receive_queue c) = msg :: rest ->
  fst (consume c) = consumed msg
  /\ Queue.items (receive_queue (snd (consume c))) = rest
  /\ Queue.well_formed (receive_queue (snd (consume c)))
  /\ send_queue (snd (consume c)) = send_queue c
  /\ _request_id (snd (consume c)) = _request_id c.
Proof.
  unfold Queue.well_formed, consume, Queue.get, consumed. intros Hwf Hitems.
  rewrite Hitems in *. simpl in Hwf.
  destruct msg as [v|raw|why raw]; simpl;
    rewrite ?load_failure_not_decode_error;
    unfold finally_task_done, Queue.task_done; simpl;
    destruct (Queue.unfinished_tasks (receive_queue c)); simpl in *;
    try lia; repeat split; lia.
Qed.

Lemma receive_all_items (msgs : list text) (c : StreamClient) :
  Queue.items (receive_queue (receive_all msgs c))
  = (Queue.items (receive_queue c) ++ msgs)%list
  /\ (Queue.well_formed (receive_queue c) ->
      Queue.well_formed (receive_queue (receive_all msgs c))).
Proof.
  revert c. induction msgs as [|m msgs IH]; intros c.
  - simpl. now rewrite app_nil_r.
  - destruct (IH (_recv_msg false (Received m) c)) as [Hitems Hwf].
    change (receive_all (m :: msgs) c)
      with (receive_all msgs (_recv_msg false (Received m) c)).
    rewrite Hitems. simpl. rewrite <- app_assoc.
    split; [reflexivity|].
    intros H. apply Hwf. now apply _recv_msg_well_formed.
Qed.

Lemma consume_times_items (items : list text) :
  forall c : StreamClient,
    Queue.well_formed (receive_queue c) ->
    Queue.items (receive_queue c) = items ->
    fst (consume_times (List.length items) c) = map consumed items
    /\ Queue.items (receive_queue (snd (consume_times (List.length items) c))) = [].
Proof.
  induction items as [|m items IH]; intros c Hwf Hitems; simpl.
  - auto.
  - destruct (consume_head c m items Hwf Hitems) as [Hr [Hrest [Hwf' _]]].
    destruct (consume c) as [r c'] eqn:Hc. simpl in *.
    destruct (IH c' Hwf' Hrest) as [Hrs Hempty].
    destruct (consume_times (List.length items) c') as [rs c'']. simpl in *.
    now rewrite Hr, Hrs.
Qed.

(** X8: the inbound side is first in, first out.  Successive calls of
    [consume] deal with the frames the receiver loop put on the queue
    in the order of their arrival, one frame per call: a JSON document
    is returned as its value, a text that is not one as [None], and a
    text [json.loads] gives up on makes that call raise, the frame
    being taken off the queue all the same.  After as many calls as
    frames the queue is empty and the next [consume] waits. *)
Theorem receive_queue_fifo (msgs : list text) (c : StreamClient) :
  Queue.well_formed (receive_queue c) ->
  Queue.items (receive_queue c) = [] ->
  fst (consume_times (List.length msgs) (receive_all msgs c)) = map consumed msgs
  /\ fst (consume (snd (consume_times (List.length msgs) (receive_all msgs c))))
     = Waits.
Proof.
  intros Hwf Hempty.
  destruct (receive_all_items msgs c) as [Hitems Hwf'].
  rewrite Hempty in Hitems. simpl in Hitems.
  destruct (consume_times_items msgs (receive_all msgs c) (Hwf' Hwf) Hitems)
    as [Hrs Hdrained].
  split; [exact Hrs|].
  unfold consume, Queue.get. now rewrite Hdrained.
Qed.

Lemma receive_queue_fifo_witness :
  (Queue.well_formed (receive_queue new_session)
   /\ Queue.items (receive_queue new_session) = [])
  /\ fst (consume_times 4 (receive_all [accepted; Garbage "ping";
                                        Unloadable BadEncoding "ff"; denied]
                                       new_session))
     = [consumed accepted; Returns JNull; Raises UnicodeDecodeError; consumed denied].
Proof.
  split; [split; [apply receive_queue_init | reflexivity]|].
  apply (proj1 (receive_queue_fifo [accepted; Garbage "ping";
                                    Unloadable BadEncoding "ff"; denied] new_session
                  (receive_queue_init _ _) eq_refl)).
Defined.

Lemma poll_login_response_S (fuel : nat) (c : StreamClient) :
  poll_login_response (S fuel) c
  = match consume c with
    | (Returns v, c') =>
        if truthy v then (Returns v, c') else poll_login_response fuel c'
    | (Raises e, c') => (Raises e, c')
    | (Waits, c') => (Waits, c')
    end.
Proof.
  simpl. unfold Task.bind. destruct (consume c) as [[v|e|] c']; try reflexivity.
  destruct (truthy v); reflexivity.
Qed.

(** X9: the login poll ends at the first frame it does not pass over.
    It takes from the queue the texts it passes over (those that are
    not JSON documents or decode to an empty value) and that frame, and
    nothing more: when the frame is a response it is returned, when
    [json.loads] gives up on it the poll raises, and either way what
    arrived after it is still queued, in order, with the send queue and
    the request counter untouched. *)
Theorem poll_leaves_later_messages (skipped : list text) (answer : text)
    (later : list text) (c : StreamClient) :
  Queue.well_formed (receive_queue c) ->
  Queue.items (receive_queue c) = (skipped ++ answer :: later)%list ->
  Forall skipped_by_poll skipped ->
  ~ skipped_by_poll answer ->
  exists c' : StreamClient,
    poll_login_response (S (List.length (Queue.items (receive_queue c)))) c
    = (consumed answer, c')
    /\ Queue.items (receive_queue c') = later
    /\ send_queue c' = send_queue c
    /\ _request_id c' = _request_id c.
Proof.
  revert c. induction skipped as [|m skipped IH]; intros c Hwf Hitems Hskip Hanswer.
  - simpl in Hitems.
    destruct (consume_head c answer later Hwf Hitems) as [Hr [Hrest [_ [Hsq Hid]]]].
    rewrite poll_login_response_S.
    destruct (consume c) as [r c'] eqn:Hc. simpl in *. subst r.
    exists c'. split; [|repeat split; assumption].
    destruct (consumed answer) as [v|e|] eqn:Hv; try reflexivity.
    destruct (truthy v) eqn:Htruthy; [reflexivity|].
    elim Hanswer. exists v. split; [exact Hv | exact Htruthy].
  - simpl in Hitems. inversion Hskip as [|? ? [v [Hv Hfalsy]] Hskip']; subst.
    destruct (consume_head c m _ Hwf Hitems) as [Hr [Hrest [Hwf' [Hsq Hid]]]].
    rewrite poll_login_response_S.
    destruct (consume c) as [r c'] eqn:Hc. simpl in *.
    rewrite Hr, Hv, Hfalsy.
    destruct (IH c' Hwf' Hrest Hskip' Hanswer) as [c'' [Hpoll [Hl [Hsq' Hid']]]].
    rewrite (poll_fuel _ c') by (rewrite Hrest, Hitems; simpl; lia).
    exists c''. split; [exact Hpoll|]. split; [exact Hl|].
    split; [now rewrite Hsq' | now rewrite Hid'].
Qed.

(** Frames as they may arrive during a login: a keep-alive that is not
    JSON, then the response, then data. *)
Definition arrived : StreamClient :=
  receive_all [Garbage "ping"; accepted; denied] new_session.

(** The same with a binary frame that is not valid UTF-8 in front of
    the response. *)
Definition arrived_undecodable : StreamClient :=
  receive_all [Garbage "ping"; Unloadable BadEncoding "ff"; accepted] new_session.

Lemma poll_leaves_later_messages_witness :
  (Queue.well_formed (receive_queue arrived)
   /\ Queue.items (receive_queue arrived) = ([Garbage "ping"] ++ accepted :: [denied])%list
   /\ Forall skipped_by_poll [Garbage "ping"]
   /\ ~ skipped_by_poll accepted)
  /\ (exists c' : StreamClient,
         fst (_is_login_success arrived) = Returns (Some true)
         /\ poll_login_response (S (List.length (Queue.items (receive_queue arrived))))
                                arrived
            = (consumed accepted, c')
         /\ Queue.items (receive_queue c') = [denied])
  /\ exists c' : StreamClient,
      poll_login_response
        (S (List.length (Queue.items (receive_queue arrived_undecodable))))
        arrived_undecodable
      = (Raises UnicodeDecodeError, c')
      /\ Queue.items (receive_queue c') = [accepted].
Proof.
  assert (Hwf : Queue.well_formed (receive_queue arrived))
    by (unfold Queue.well_formed; simpl; lia).
  assert (Hwf' : Queue.well_formed (receive_queue arrived_undecodable))
    by (unfold Queue.well_formed; simpl; lia).
  assert (Hskip : Forall skipped_by_poll [Garbage "ping"]).
  { constructor; [|constructor]. exists JNull. split; reflexivity. }
  assert (Hanswer : ~ skipped_by_poll accepted).
  { intros [v [Hv Hfalsy]]. injection Hv as <-. discriminate. }
  assert (Hraise : ~ skipped_by_poll (Unloadable BadEncoding "ff")).
  { intros [v [Hv _]]. discriminate. }
  split; [repeat split; assumption|]. split.
  - destruct (poll_leaves_later_messages [Garbage "ping"] accepted [denied] arrived
                Hwf eq_refl Hskip Hanswer)
      as [c' [Hpoll [Hlater _]]].
    exists c'. split; [vm_compute; reflexivity|]. split; assumption.
  - destruct (poll_leaves_later_messages [Garbage "ping"] (Unloadable BadEncoding "ff")
                [accepted] arrived_undecodable Hwf' eq_refl Hskip Hraise)
      as [c' [Hpoll [Hlater _]]].
    exists c'. split; assumption.
Defined.

End QueueEdges.

Section SendAccounting.

Import Json Socket.

(** No pass of the sender loop ends in an exception that [_send_msg]
    does not catch. *)
Fixpoint sends_caught (schedule : list event) : bool :=
  match schedule with
  | [] => true
  | SenderPass _ (SendFailed _) :: _ => false
  | _ :: rest => sends_caught rest
  end.

Lemma sends_caught_snoc (schedule : list event) (ev : event) :
  sends_caught (schedule ++ [ev]) = true ->
  sends_caught schedule = true
  /\ match ev with SenderPass _ (SendFailed _) => False | _ => True end.
Proof.
  induction schedule as [|e schedule IH]; simpl.
  - destruct ev as [|? []]; intros; split; auto; discriminate.
  - destruct e as [|? []]; auto; discriminate.
Qed.

(** The books of the send queue after a run. *)
Definition balanced (s : session) (enqueued_so_far : nat) : Prop :=
  (Queue.unfinished_tasks (send_queue (client s)) + List.length (wire s)
   = enqueued_so_far)%nat
  /\ Queue.well_formed (send_queue (client s)).

Lemma step_balanced (s : session) (ev : event) (n : nat) :
  balanced s n ->
  balanced (step s ev)
           (n + match ev with Produce _ => 1 | SenderPass _ _ => 0 end)
  /\ (sender_alive s = true ->
      match ev with SenderPass _ (SendFailed _) => False | _ => True end ->
      sender_alive (step s ev) = true).
Proof.
  unfold balanced, Queue.well_formed. intros [Hcount Hwf].
  destruct ev as [request|ws_closed r]; simpl.
  - rewrite ?length_app. simpl. repeat split; auto; lia.
  - unfold _send_msg.
    destruct (sender_alive s) eqn:Halive; simpl;
      [|repeat split; auto; try lia; discriminate].
    destruct ws_closed; simpl; [repeat split; auto; lia|].
    unfold Queue.get.
    destruct (Queue.items (send_queue (client s))) as [|msg rest] eqn:Hitems;
      [rewrite Hitems; repeat split; auto; lia|].
    simpl in Hwf.
    destruct r as [| |e]; simpl.
    + unfold Queue.task_done. simpl.
      destruct (Queue.unfinished_tasks (send_queue (client s))) as [|k]; [lia|].
      simpl. rewrite length_app. simpl. repeat split; auto; lia.
    + repeat split; auto; lia.
    + repeat split; try lia; intros _ [].
Qed.

(** X10: from a fresh session, whatever the schedule, the send queue's
    count of unfinished tasks is the number of texts enqueued less the
    number written to the wire, and it never falls below the number of
    texts queued.  So a message lost to a closed connection is never
    marked done, the [task_done] of the sender loop never raises, and
    the sender task stays alive as long as [send] raises nothing but
    [ConnectionClosed]. *)
Theorem send_queue_accounting (schedule : list event) :
  (Queue.unfinished_tasks (send_queue (client (run schedule fresh)))
   + List.length (wire (run schedule fresh))
   = List.length (enqueued schedule))%nat
  /\ Queue.well_formed (send_queue (client (run schedule fresh)))
  /\ (sends_caught schedule = true -> sender_alive (run schedule fresh) = true).
Proof.
  induction schedule as [|ev schedule IH] using rev_ind.
  - repeat split. unfold Queue.well_formed; simpl; lia.
  - destruct IH as [Hcount [Hwf Halive]].
    rewrite run_snoc, enqueued_snoc, length_app.
    destruct (step_balanced (run schedule fresh) ev
                (List.length (enqueued schedule)) (conj Hcount Hwf))
      as [[Hcount' Hwf'] Halive'].
    split; [|split].
    + rewrite Hcount'. destruct ev; reflexivity.
    + exact Hwf'.
    + intros Hok. apply sends_caught_snoc in Hok as [Hok Hev]. auto.
Qed.

(** A schedule with a send lost to a closed connection. *)
Definition lossy : list event :=
  [Produce m1; Produce m2; SenderPass false SendClosed; SenderPass false Sent;
   SenderPass false Sent].

Lemma send_queue_accounting_witness :
  sends_caught lossy = true
  /\ sender_alive (run lossy fresh) = true
  /\ Queue.items (send_queue (client (run lossy fresh))) = []
  /\ Queue.unfinished_tasks (send_queue (client (run lossy fresh))) = 1%nat.
Proof.
  split; [reflexivity|].
  split; [apply (proj2 (proj2 (send_queue_accounting lossy))); reflexivity|].
  split; reflexivity.
Defined.

End SendAccounting.

(** ** The market gate: its end, and the status beside it *)

Section GateEdges.

Import Datetime Market.
Local Open Scope Z_scope.

Lemma market_status_interrupt_app (before after : list (mkt_status * datetime))
    (e : bool) (log : list string) :
  Forall (fun r => exists set, gate_pass (fst r) (snd r) = Ret set) before ->
  market_status_interrupt (before ++ after) e log
  = market_status_interrupt after (fst (market_status_interrupt before e log)) log.
Proof.
  revert e. induction before as [|[m now] before IH]; intros e Hok; simpl.
  - reflexivity.
  - inversion Hok as [|? ? [set Hset] Hok']; subst. simpl in Hset.
    rewrite Hset. now apply IH.
Qed.

(** X11: the gate task does not survive a window it cannot compare.
    When the shared dict holds [None] for the open time (as on a day
    the market is closed), the pass raises, the handler logs once, and
    the task is over: the event keeps the state the passes before left
    it in, whatever the dict and the clock show afterwards. *)
Theorem market_gate_task_ends (before after : list (mkt_status * datetime))
    (m : mkt_status) (now : datetime) (e : bool) (log : list string) :
  Forall (fun r => exists set, gate_pass (fst r) (snd r) = Ret set) before ->
  openTime m = None ->
  market_status_interrupt (before ++ (m, now) :: after) e log
  = (fst (market_status_interrupt before e log),
     (log ++ ["Failed market status check."%string])%list).
Proof.
  intros Hok Hnone.
  rewrite market_status_interrupt_app by assumption.
  simpl. unfold gate_pass, le_le, le. rewrite Hnone. reflexivity.
Qed.

(** A day the market is closed, then the window of the next day. *)
Definition closed_day : mkt_status := mk None None None.

Lemma market_gate_task_ends_witness :
  (Forall (fun r => exists set, gate_pass (fst r) (snd r) = Ret set)
          [(session_window, utc 9 59)]
   /\ openTime closed_day = None)
  /\ fst (market_status_interrupt
            ([(session_window, utc 9 59)]
               ++ (closed_day, utc 10 0) :: [(session_window, utc 12 0)])
            false [])
     = false.
Proof.
  assert (H : Forall (fun r => exists set, gate_pass (fst r) (snd r) = Ret set)
                     [(session_window, utc 9 59)]).
  { constructor; [exists false; reflexivity | constructor]. }
  split; [split; [exact H | reflexivity]|].
  rewrite (market_gate_task_ends [(session_window, utc 9 59)]
             [(session_window, utc 12 0)] closed_day (utc 10 0) false [] H eq_refl).
  reflexivity.
Defined.

(** X12: the gate and the [status] entry are computed by different
    comparisons.  Whenever [check_mkt_hours] reports the market open the
    gate is set, and the two disagree only at the two ends of the
    window: at exactly the open time and at exactly the close time the
    gate is set while [check_mkt_hours] says closed. *)
Theorem gate_and_status (st : option bool) (o c now : datetime) :
  (check_mkt_hours o c now = true ->
   gate_pass (mk st (Some o) (Some c)) now = Ret true)
  /\ (gate_pass (mk st (Some o) (Some c)) now = Ret true ->
      check_mkt_hours o c now = false ->
      now = o \/ now = c)
  /\ (o <= c ->
      gate_pass (mk st (Some o) (Some c)) o = Ret true
      /\ check_mkt_hours o c o = false
      /\ gate_pass (mk st (Some o) (Some c)) c = Ret true
      /\ check_mkt_hours o c c = false).
Proof.
  rewrite !gate_pass_window. unfold check_mkt_hours.
  split; [|split].
  - destruct (o <? now) eqn:H1, (now <? c) eqn:H2; simpl; try discriminate.
    intros _. f_equal. apply andb_true_iff.
    rewrite Z.ltb_lt in *. split; apply Z.leb_le; lia.
  - intros Hgate. injection Hgate as Hgate. apply andb_true_iff in Hgate as [H1 H2].
    rewrite Z.leb_le in *.
    destruct (o <? now) eqn:H3, (now <? c) eqn:H4; simpl; try discriminate;
      rewrite ?Z.ltb_lt, ?Z.ltb_ge in *; intros _; lia.
  - intros Hoc. rewrite !Z.ltb_irrefl, !Z.leb_refl. simpl.
    replace (o <=? c) with true by (symmetry; apply Z.leb_le; lia).
    rewrite andb_false_r. simpl. repeat split; reflexivity.
Qed.

Lemma gate_and_status_witness :
  utc 10 0 <= utc 16 0
  /\ gate_pass session_window (utc 10 0) = Ret true
  /\ check_mkt_hours (utc 10 0) (utc 16 0) (utc 10 0) = false.
Proof.
  assert (H : utc 10 0 <= utc 16 0) by (vm_compute; discriminate).
  split; [exact H|].
  destruct (proj2 (proj2 (gate_and_status (Some true) (utc 10 0) (utc 16 0) (utc 10 0))) H)
    as [H1 [H2 _]].
  split; assumption.
Defined.

End GateEdges.

(** ** The token lifecycle: round trip, failures, the paths not taken *)

Section TokenLifecycleEdges.

Import Json Datetime Auth.
Local Open Scope string_scope.

Variable clock : nat -> datetime.
Variable is_expired : json -> datetime -> bool.
Variable timestamp : datetime -> PrimFloat.float.
Variable fromtimestamp : json -> result datetime.

Ltac settle :=
  repeat (simpl in *; try discriminate;
          match goal with
          | H : (_, _) = (_, _) |- _ => inversion H; subst; clear H
          | H : Ret _ = Ret _ |- _ => inversion H; subst; clear H
          | H : context [match ?x with _ => _ end] |- _ => destruct x eqn:?
          end).

(** X13: what [save] writes, [load] reads back.  After a [save] that
    returned, a [load] returns too and restores the manager's token as
    it was; the [created_timestamp] it restores is the saved one as far
    as the conversion to a float timestamp and back preserves it. *)
Theorem save_then_load (o o1 : oauth) (created : datetime) :
  run (Auth.save timestamp) [] o = (o1, Returns tt, []) ->
  fromtimestamp (JFloat (timestamp (created_timestamp (token_metadata o))))
  = Ret created ->
  run (Auth.load fromtimestamp) [] o1
  = (set_token_metadata (mk_manager (token (token_metadata o)) created) o1,
     Returns tt, []).
Proof.
  unfold run, Auth.save, Auth.load, Auth.bind, Auth.read, Auth.lift, Auth.update,
    Auth.raise, connect_db, redis_get, redis_set.
  intros Hsave Hstamp. settle; rewrite Hstamp; reflexivity.
Qed.


(** X15: a refresh that the provider refuses is not swallowed.  With an
    expired access token and a refresh token still valid, [renew] sends
    one refresh request; when that raises, the same exception leaves
    [renew], the failure is logged, and the manager and the store are
    as before. *)
Theorem refresh_failure_propagates (o : oauth) (fields : list (string * json))
    (rt : json) (e : exn) :
  token (token_metadata o) = JObj fields ->
  is_expired (JObj fields) (clock (ticks o)) = true ->
  is_refresh_token_expired (token_metadata o) (clock (S (ticks o))) = Ret false ->
  getitem_str (JObj fields) "refresh_token" = Ret rt ->
  exists o' : oauth,
    run (Auth.renew clock is_expired timestamp) [Raise e] o
    = (o', Raises e, [Refresh rt])
    /\ token_metadata o' = token_metadata o
    /\ redis o' = redis o
    /\ log o' = (log o ++ ["Refreshing access token failed"])%list.
Proof.
  intros Htok Hexp Hfresh Hrt.
  unfold run, Auth.renew, Auth.refresh_access_token, Auth.token_is_expired,
    Auth.try_except, Auth.bind, Auth.read, Auth.raise, Auth.ret, Auth.lift,
    Auth.update, Auth.await, Auth.now.
  cbn -[is_refresh_token_expired getitem_str]. rewrite Htok.
  cbn -[is_refresh_token_expired getitem_str]. rewrite Hexp.
  cbn -[is_refresh_token_expired getitem_str].
  rewrite Hfresh. cbn -[is_refresh_token_expired getitem_str]. rewrite Htok, Hrt.
  cbn -[is_refresh_token_expired getitem_str].
  eexists. repeat split.
Qed.

(** X16: with a token in memory that has not expired, and the same
    true of the manager's, [check_authentication] returns at once: it
    asks nothing of the provider or the operator and leaves the store
    and the manager alone; the session's token becomes the manager's.
    With an unexpired token in memory but none in the manager, it
    raises [AttributeError]. *)
Theorem check_authentication_fast_path (o : oauth)
    (answers : list (result json)) (held : list (string * json)) :
  session_token o = JObj held ->
  is_expired (JObj held) (clock (ticks o)) = false ->
  (forall kept : list (string * json),
      token (token_metadata o) = JObj kept ->
      is_expired (JObj kept) (clock (S (ticks o))) = false ->
      exists o' : oauth,
        run (Auth.check_authentication clock is_expired timestamp fromtimestamp)
            answers o
        = (o', Returns tt, [])
        /\ session_token o' = JObj kept
        /\ token_metadata o' = token_metadata o
        /\ redis o' = redis o
        /\ log o' = log o)
  /\ (token (token_metadata o) = JNull ->
      fst (run (Auth.check_authentication clock is_expired timestamp fromtimestamp)
               answers o)
      = (set_session_token JNull
           (mk_oauth (session_token o) (token_metadata o) (redis o) (S (ticks o))
                     (log o)),
         Raises AttributeError)).
Proof.
  intros Hheld Hvalid.
  unfold run, Auth.check_authentication, Auth.reload, Auth.renew,
    Auth.token_missing_or_expired, Auth.token_is_expired,
    Auth.bind, Auth.read, Auth.raise, Auth.ret, Auth.update, Auth.now.
  split.
  - intros kept Hkept Hvalid'.
    cbn. rewrite Hheld. cbn. rewrite Hvalid. cbn. rewrite Hkept. cbn.
    rewrite Hvalid'. cbn. eexists. repeat split.
  - intros Hnone.
    cbn. rewrite Hheld. cbn. rewrite Hvalid. cbn. rewrite Hnone. reflexivity.
Qed.

(** X17: a refresh token past its seven days is never sent.  With an
    expired access token and an expired refresh token, [renew] asks for
    a manual authorization and makes no other request, whatever the
    answers. *)
Theorem expired_refresh_token_not_sent (o : oauth) (fields : list (string * json))
    (answers : list (result json)) :
  token (token_metadata o) = JObj fields ->
  is_expired (JObj fields) (clock (ticks o)) = true ->
  is_refresh_token_expired (token_metadata o) (clock (S (ticks o))) = Ret true ->
  exists (o' : oauth) (r : outcome unit),
    run (Auth.renew clock is_expired timestamp) answers o = (o', r, [FetchToken]).
Proof.
  intros Htok Hexp Hstale.
  unfold run, Auth.renew, Auth.token_is_expired, Auth.manual_authentication,
    Auth.save, Auth.bind, Auth.read, Auth.raise, Auth.ret, Auth.lift,
    Auth.update, Auth.await, Auth.now, connect_db, redis_set.
  cbn -[is_refresh_token_expired]. rewrite Htok.
  cbn -[is_refresh_token_expired]. rewrite Hexp.
  cbn -[is_refresh_token_expired].
  rewrite Hstale. cbn -[is_refresh_token_expired].
  destruct answers as [|[tok|e] rest]; cbn; eauto;
    destruct (db (redis o)) eqn:Hdb; cbn; rewrite ?Hdb; cbn; eauto.
Qed.

End TokenLifecycleEdges.

Section TokenLifecycleExamples.

Import Json Datetime Auth.
Local Open Scope string_scope.
Local Open Scope Z_scope.

(** The largest integer below [2 ^ bits] above [acc] whose float is not
    above [f], found bit by bit. *)
Fixpoint floor_from (bits : nat) (acc : Z) (f : PrimFloat.float) : Z :=
  match bits with
  | O => acc
  | S b =>
      let candidate := acc + 2 ^ Z.of_nat b in
      if PrimFloat.leb (float_of_Z candidate) f
      then floor_from b candidate f
      else floor_from b acc f
  end.

(** A reader of timestamps that takes floats too, down to the
    microsecond below. *)
Definition of_unix_timestamp (x : json) : result datetime :=
  match x with
  | JInt seconds => Ret (unix_epoch + seconds * 1000000)
  | JFloat f =>
      Ret (unix_epoch + floor_from 62 0 (PrimFloat.mul f (float_of_Z 1000000)))
  | _ => Raise TypeError
  end.

Definition saved : oauth := fst (fst (run (Auth.save unix_seconds) [] loaded)).

Lemma save_then_load_witness :
  (run (Auth.save unix_seconds) [] loaded = (saved, Returns tt, [])
   /\ of_unix_timestamp (JFloat (unix_seconds (created_timestamp (token_metadata loaded))))
      = Ret issued)
  /\ run (Auth.load of_unix_timestamp) [] saved
     = (set_token_metadata (mk_manager (JObj stale_token) issued) saved,
        Returns tt, []).
Proof.
  assert (Hsave : run (Auth.save unix_seconds) [] loaded = (saved, Returns tt, []))
    by (vm_compute; reflexivity).
  assert (Hstamp : of_unix_timestamp
                     (JFloat (unix_seconds (created_timestamp (token_metadata loaded))))
                   = Ret issued)
    by (vm_compute; reflexivity).
  split; [split; assumption|].
  exact (save_then_load unix_seconds of_unix_timestamp loaded saved issued Hsave Hstamp).
Defined.


Lemma refresh_failure_propagates_witness :
  (token (token_metadata loaded) = JObj stale_token
   /\ expires_at_passed (JObj stale_token) (wall_clock (ticks loaded)) = true
   /\ is_refresh_token_expired (token_metadata loaded) (wall_clock (S (ticks loaded)))
      = Ret false
   /\ getitem_str (JObj stale_token) "refresh_token" = Ret (JStr "refresh-0"))
  /\ exists o' : oauth,
      run (Auth.renew wall_clock expires_at_passed unix_seconds)
          [Raise (OtherError "OAuthError")] loaded
      = (o', Raises (OtherError "OAuthError"), [Refresh (JStr "refresh-0")])
      /\ token_metadata o' = token_metadata loaded.
Proof.
  assert (H1 : expires_at_passed (JObj stale_token) (wall_clock (ticks loaded)) = true)
    by (vm_compute; reflexivity).
  assert (H2 : is_refresh_token_expired (token_metadata loaded)
                 (wall_clock (S (ticks loaded))) = Ret false)
    by (vm_compute; reflexivity).
  split; [repeat split; assumption|].
  destruct (refresh_failure_propagates wall_clock expires_at_passed unix_seconds
              loaded stale_token (JStr "refresh-0") (OtherError "OAuthError")
              eq_refl H1 H2 eq_refl)
    as [o' [Hrun [Hm _]]].
  exists o'. split; assumption.
Defined.

(** A session that holds a token that has not run out, over a store
    that is down. *)
Definition current : oauth :=
  mk_oauth (token_from_provider "access-1")
           (mk_manager (token_from_provider "access-1") issued)
           (mk_store Unreachable None) 0 [].

Lemma check_authentication_fast_path_witness :
  (session_token current = token_from_provider "access-1"
   /\ expires_at_passed (token_from_provider "access-1") (wall_clock (ticks current))
      = false
   /\ expires_at_passed (token_from_provider "access-1")
        (wall_clock (S (ticks current))) = false)
  /\ exists o' : oauth,
      run (Auth.check_authentication wall_clock expires_at_passed unix_seconds
             of_unix_seconds) [] current
      = (o', Returns tt, []).
Proof.
  assert (H1 : expires_at_passed (token_from_provider "access-1")
                 (wall_clock (ticks current)) = false)
    by (vm_compute; reflexivity).
  assert (H2 : expires_at_passed (token_from_provider "access-1")
                 (wall_clock (S (ticks current))) = false)
    by (vm_compute; reflexivity).
  split; [repeat split; assumption|].
  destruct (proj1 (check_authentication_fast_path wall_clock expires_at_passed
                     unix_seconds of_unix_seconds current [] _ eq_refl H1)
                  _ eq_refl H2)
    as [o' [Hrun _]].
  exists o'. exact Hrun.
Defined.

(** A clock that reads eight days after [issued]. *)
Definition late_clock (n : nat) : datetime := issued + days 8.

Lemma expired_refresh_token_not_sent_witness :
  (token (token_metadata loaded) = JObj stale_token
   /\ expires_at_passed (JObj stale_token) (late_clock (ticks loaded)) = true
   /\ is_refresh_token_expired (token_metadata loaded) (late_clock (S (ticks loaded)))
      = Ret true)
  /\ exists (o' : oauth) (r : outcome unit),
      run (Auth.renew late_clock expires_at_passed unix_seconds)
          [Ret (token_from_provider "access-1")] loaded
      = (o', r, [FetchToken]).
Proof.
  assert (H1 : expires_at_passed (JObj stale_token) (late_clock (ticks loaded)) = true)
    by (vm_compute; reflexivity).
  assert (H2 : is_refresh_token_expired (token_metadata loaded)
                 (late_clock (S (ticks loaded))) = Ret true)
    by (vm_compute; reflexivity).
  split; [repeat split; assumption|].
  exact (expired_refresh_token_not_sent late_clock expires_at_passed unix_seconds
           loaded stale_token [Ret (token_from_provider "access-1")] eq_refl H1 H2).
Defined.

End TokenLifecycleExamples.

(** ** Validation against the enumerations *)

Section ValidationFacts.

Import Validation.
Local Open Scope string_scope.

Lemma check_enum_value_raises (f : field) (enum : enum_cls) (e : exn) :
  check_enum_value f enum = Raise e -> e = ValueError.
Proof.
  destruct f as [cls value|s|]; simpl.
  - destruct (String.eqb cls (cls_name enum)); [discriminate | congruence].
  - destruct (is_value s enum); [discriminate | congruence].
  - congruence.
Qed.

Lemma is_value_In (s : string) (enum : enum_cls) :
  is_value s enum = true <-> In s (cls_values enum).
Proof.
  unfold is_value. rewrite existsb_exists. split.
  - intros [v [Hin Heq]]. apply String.eqb_eq in Heq. now subst.
  - intros Hin. exists s. split; [assumption | apply String.eqb_refl].
Qed.

(** X18: [validate_enums_iterable] on a list is all or nothing.  It
    returns exactly when [check_enum_value] accepts every element, and
    then returns one value per element, in order, every string among
    them a value of the class; when some element is not accepted it
    raises [ValueError] and no other exception. *)
Theorem validate_enums_iterable_list (xs : list field) (enum : enum_cls) :
  ((forall f, In f xs -> exists v, check_enum_value f enum = Ret v) ->
   exists vs : list string,
     validate_enums_iterable (Fields xs) enum = Ret vs
     /\ Forall2 (fun f v => check_enum_value f enum = Ret v) xs vs
     /\ (forall s, In (Str s) xs -> In s (cls_values enum) /\ In s vs))
  /\ ((exists f, In f xs /\ check_enum_value f enum = Raise ValueError) ->
      validate_enums_iterable (Fields xs) enum = Raise ValueError).
Proof.
  simpl. induction xs as [|x xs [IHok IHbad]]; split.
  - intros _. exists []. repeat split; [constructor | contradiction | contradiction].
  - intros [f [[] _]].
  - intros Hall. destruct (Hall x (or_introl eq_refl)) as [v Hv].
    destruct IHok as [vs [Hvs [Hall2 Hstr]]]; [intros; apply Hall; now right|].
    exists (v :: vs). simpl. rewrite Hv. simpl. rewrite Hvs. simpl.
    repeat split; [now constructor | |].
    + destruct H as [->|Hin]; [|now apply Hstr].
      simpl in Hv. destruct (is_value s enum) eqn:Hs; [|discriminate].
      now apply is_value_In.
    + destruct H as [->|Hin]; [|right; now apply Hstr].
      simpl in Hv. destruct (is_value s enum); [|discriminate].
      injection Hv as <-. now left.
  - intros [f [Hin Hbad]]. simpl.
    destruct (check_enum_value x enum) as [v|e] eqn:Hx.
    + destruct Hin as [->|Hin]; [congruence|].
      simpl. rewrite IHbad by eauto. reflexivity.
    + apply check_enum_value_raises in Hx. now subst.
Qed.

Lemma validate_enums_iterable_list_witness :
  (forall f, In f [Str "quote"; Member "Quote.Fields" "fundamental"] ->
             exists v, check_enum_value f Quote_Fields = Ret v)
  /\ exists vs : list string,
      validate_enums_iterable
        (Fields [Str "quote"; Member "Quote.Fields" "fundamental"]) Quote_Fields
      = Ret vs
      /\ In "quote" vs.
Proof.
  assert (H : forall f, In f [Str "quote"; Member "Quote.Fields" "fundamental"] ->
                        exists v, check_enum_value f Quote_Fields = Ret v).
  { intros f [<-|[<-|[]]]; eexists; reflexivity. }
  split; [exact H|].
  destruct (proj1 (validate_enums_iterable_list
                     [Str "quote"; Member "Quote.Fields" "fundamental"] Quote_Fields) H)
    as [vs [Hvs [_ Hstr]]].
  exists vs. split; [exact Hvs|]. apply Hstr. now left.
Defined.

(** X19: a bare string is taken for its characters.  For a class none
    of whose values is a single character, [validate_enums_iterable]
    raises [ValueError] on every non-empty string passed alone, a value
    of the class or not, and returns the empty list on the empty
    string; a member passed alone is accepted. *)
Theorem validate_enums_iterable_bare (s : string) (enum : enum_cls) :
  (forall v, In v (cls_values enum) -> String.length v <> 1) ->
  (s <> EmptyString -> validate_enums_iterable (Alone (Str s)) enum = Raise ValueError)
  /\ validate_enums_iterable (Alone (Str EmptyString)) enum = Ret []
  /\ validate_enums_iterable (Alone (Member (cls_name enum) s)) enum = Ret [s].
Proof.
  intros Hlong. split; [|split; [reflexivity|]]; cycle 1.
  { simpl. rewrite String.eqb_refl. reflexivity. }
  destruct s as [|c s]; [congruence|]. intros _. simpl.
  destruct (is_value (String c EmptyString) enum) eqn:Hc; [|reflexivity].
  apply is_value_In in Hc. apply Hlong in Hc. now elim Hc.
Qed.

Lemma validate_enums_iterable_bare_witness :
  (forall v, In v (cls_values Quote_Fields) -> String.length v <> 1)
  /\ In "quote" (cls_values Quote_Fields)
  /\ validate_enums_iterable (Alone (Str "quote")) Quote_Fields = Raise ValueError.
Proof.
  assert (H : forall v, In v (cls_values Quote_Fields) -> String.length v <> 1).
  { intros v [<-|[<-|[<-|[<-|[<-|[]]]]]]; discriminate. }
  split; [exact H|]. split; [now left|].
  apply (proj1 (validate_enums_iterable_bare "quote" Quote_Fields H)). discriminate.
Defined.

(** In a class with a one-character value the characters can pass:
    the bare string "S" is accepted by [Option.Type]. *)
Example validate_enums_iterable_bare_S :
  validate_enums_iterable (Alone (Str "S")) Option_Type = Ret ["S"].
Proof. reflexivity. Qed.

End ValidationFacts.

(** ** The market-hours request: what the caller gets back *)

Section MarketHoursRequest.

Import Json Datetime Market Auth Validation Client.
Local Open Scope string_scope.

Variable clock : nat -> datetime.
Variable is_expired : json -> datetime -> bool.
Variable timestamp : datetime -> PrimFloat.float.
Variable fromtimestamp : json -> result datetime.
Variable response : Type.
Variable raise_for_status : response -> result unit.
Variable response_json : response -> result json.
Variable fromisoformat : json -> result datetime.

Abbreviation check_authentication :=
  (Auth.check_authentication clock is_expired timestamp fromtimestamp).
Abbreviation _get_request :=
  (Client._get_request clock is_expired timestamp fromtimestamp raise_for_status).
Abbreviation is_market_open :=
  (Client.is_market_open clock is_expired timestamp fromtimestamp raise_for_status
                         response_json fromisoformat).
Abbreviation update_market_times :=
  (Client.update_market_times clock is_expired timestamp fromtimestamp
                              raise_for_status response_json fromisoformat).

(** What [_get_request] gives after a rejected token: the outcome of
    [check_authentication], with [None] for its return. *)
Definition reauthenticated {A : Type} (first : oauth * outcome unit * list request)
  : oauth * outcome (option A) * list request :=
  let '(o1, r, rqs) := first in
  (o1, match r with
       | Returns _ => Returns None
       | Raises e => Raises e
       | Waits => Waits
       end, rqs).

Lemma run_get_request (got : result response) (answers : list (result json))
    (o : oauth) :
  run (_get_request got) answers o
  = match got with
    | Ret resp =>
        match raise_for_status resp with
        | Ret _ => (o, Returns (Some resp), [])
        | Raise e =>
            (logger (if is_HTTPError e then "HTTP Error" else "Unexpected error") o,
             Returns None, [])
        end
    | Raise e =>
        if is_InvalidTokenError e
        then reauthenticated (run check_authentication answers o)
        else (o, Raises e, [])
    end.
Proof.
  unfold Client._get_request. rewrite run_try_except.
  destruct got as [resp|e].
  - unfold Client._check_response, run, Auth.bind, Auth.lift. cbn [bind_susp].
    destruct (raise_for_status resp) as [u|e]; reflexivity.
  - cbn [run Auth.bind Auth.lift bind_susp run_susp catch_run].
    destruct (is_InvalidTokenError e); [|reflexivity].
    cbn [skipn List.length]. rewrite run_bind. unfold reauthenticated.
    destruct (run check_authentication answers o) as [[o1 r] rqs].
    destruct r as [u|e'|]; cbn; rewrite ?List.app_nil_r; reflexivity.
Qed.

(** X20: [_get_request] hands back a response only when the GET
    returned one whose status check passed.  A response with an error
    status is not raised but logged and answered with [None]; a
    rejected token starts [check_authentication], after which the call
    returns [None] as well: the request is not sent again.  Any other
    failure of the GET is raised. *)
Theorem get_request_outcomes (got : result response)
    (answers : list (result json)) (o : oauth) :
  (forall (resp : response) (o' : oauth) (rqs : list request),
      run (_get_request got) answers o = (o', Returns (Some resp), rqs) ->
      got = Ret resp /\ raise_for_status resp = Ret tt /\ o' = o /\ rqs = [])
  /\ (forall (resp : response) (e : exn),
         got = Ret resp -> raise_for_status resp = Raise e ->
         run (_get_request got) answers o
         = (logger (if is_HTTPError e then "HTTP Error" else "Unexpected error") o,
            Returns None, []))
  /\ (forall e : exn,
         got = Raise e -> is_InvalidTokenError e = true ->
         run (_get_request got) answers o
         = reauthenticated (run check_authentication answers o))
  /\ (forall e : exn,
         got = Raise e -> is_InvalidTokenError e = false ->
         run (_get_request got) answers o = (o, Raises e, [])).
Proof.
  rewrite run_get_request. split; [|split; [|split]].
  - intros resp o' rqs H. destruct got as [resp'|e].
    + destruct (raise_for_status resp') as [[]|e] eqn:Hst;
        inversion H; subst; auto.
    + destruct (is_InvalidTokenError e); [|discriminate].
      unfold reauthenticated in H.
      destruct (run check_authentication answers o) as [[o1 r] rqs1].
      destruct r; discriminate.
  - intros resp e -> Hst. rewrite Hst. reflexivity.
  - intros e -> Hinv. rewrite Hinv. reflexivity.
  - intros e -> Hinv. rewrite Hinv. reflexivity.
Qed.

Lemma run_get_market_status (got : result response) (answers : list (result json))
    (o : oauth) :
  run (Client.get_market_status clock is_expired timestamp fromtimestamp
         raise_for_status (Str "equity") got) answers o
  = run (_get_request got) answers o.
Proof. reflexivity. Qed.

(** X21: without a response there is no market status.  When the
    reply has an error status, [is_market_open] raises
    [AttributeError] (the [None] of [_get_request] has no [json]); when
    the token is rejected it re-authenticates and then raises
    [AttributeError] all the same, so in neither case does the caller
    get a window. *)
Theorem is_market_open_no_response (mkt_session : option field)
    (answers : list (result json)) (o : oauth) :
  (forall (resp : response) (e : exn),
      raise_for_status resp = Raise e ->
      run (is_market_open mkt_session (Ret resp)) answers o
      = (logger (if is_HTTPError e then "HTTP Error" else "Unexpected error") o,
         Raises AttributeError, []))
  /\ (forall e : exn,
         is_InvalidTokenError e = true ->
         run (is_market_open mkt_session (Raise e)) answers o
         = let '(o1, r, rqs) := run check_authentication answers o in
           (o1, match r with
                | Returns _ => Raises AttributeError
                | Raises e' => Raises e'
                | Waits => Waits
                end, rqs)).
Proof.
  split.
  - intros resp e Hst. unfold Client.is_market_open. rewrite run_bind.
    rewrite run_get_market_status, run_get_request, Hst. reflexivity.
  - intros e Hinv. unfold Client.is_market_open. rewrite run_bind.
    rewrite run_get_market_status, run_get_request, Hinv.
    unfold reauthenticated.
    destruct (run check_authentication answers o) as [[o1 r] rqs].
    destruct r as [u|e'|]; cbn; rewrite ?List.app_nil_r; reflexivity.
Qed.

(** After a response whose status check passed, [is_market_open] goes
    on with its body. *)
Lemma run_is_market_open_ok (mkt_session : option field) (resp : response)
    (data : json) (answers : list (result json)) (o : oauth) :
  raise_for_status resp = Ret tt ->
  response_json resp = Ret data ->
  run (is_market_open mkt_session (Ret resp)) answers o
  = run (path <~ lift (market_entry data) ;;
         mkt_open_today <~ lift (getitem_str path "isOpen") ;;
         if negb (truthy mkt_open_today) then ret (Market.mk None None None)
         else
           mkt_session <~ lift (match mkt_session with
                                | Some f => check_enum_value f Markets_Session
                                | None => Ret "regularMarket"
                                end) ;;
           otime <~ lift (session_time path mkt_session "start") ;;
           ctime <~ lift (session_time path mkt_session "end") ;;
           openTime <~ lift (fromisoformat otime) ;;
           closeTime <~ lift (fromisoformat ctime) ;;
           status <~ Client.check_mkt_hours clock fromisoformat otime ctime ;;
           ret (Market.mk (Some status) (Some openTime) (Some closeTime)))%coro
        answers o.
Proof.
  intros Hst Hjson. unfold Client.is_market_open at 1.
  rewrite run_bind, run_get_market_status, run_get_request, Hst.
  cbn [then_run List.length skipn]. rewrite run_bind.
  cbn [run Auth.lift run_susp then_run List.length skipn]. rewrite Hjson.
  cbn [run_susp then_run List.length skipn List.app].
  destruct (run _ answers o) as [[o1 r] rqs]. reflexivity.
Qed.

(** X22: on a day the market is closed ([isOpen] falsy in the reply),
    [is_market_open] returns the dict with all three entries [None]; it
    does not look at [sessionHours] nor at [mkt_session], so that a
    session name that is no member of [Markets.Session] goes unnoticed.
    The gate task started on that dict fails on its first pass and
    ends, whatever the dict holds later. *)
Theorem is_market_open_closed_day (mkt_session : option field) (resp : response)
    (data path mkt_open_today : json) (answers : list (result json)) (o : oauth) :
  raise_for_status resp = Ret tt ->
  response_json resp = Ret data ->
  market_entry data = Ret path ->
  getitem_str path "isOpen" = Ret mkt_open_today ->
  truthy mkt_open_today = false ->
  run (is_market_open mkt_session (Ret resp)) answers o
  = (o, Returns (Market.mk None None None), [])
  /\ forall (later : list (mkt_status * datetime)) (now : datetime)
            (mkt_interrupt : bool) (lg : list string),
      market_status_interrupt ((Market.mk None None None, now) :: later)
                              mkt_interrupt lg
      = (mkt_interrupt, (lg ++ ["Failed market status check."])%list).
Proof.
  intros Hst Hjson Hpath Hopen Hfalsy. split; [|reflexivity].
  rewrite (run_is_market_open_ok _ _ data) by assumption.
  unfold run, Auth.bind, Auth.lift. rewrite Hpath. cbn [bind_susp].
  rewrite Hopen. cbn [bind_susp]. rewrite Hfalsy. reflexivity.
Qed.

(** X23: on a day the market is open, with a reply that holds the
    session's hours as two strings [fromisoformat] reads,
    [is_market_open] returns the two times read and, as [status],
    whether the clock lies strictly between them; it reads the clock
    once, logs one line and asks nothing of the provider. *)
Theorem is_market_open_open_day (mkt_session : option field) (resp : response)
    (data path mkt_open_today otime ctime : json) (name : string)
    (open_time close_time : datetime) (answers : list (result json)) (o : oauth) :
  raise_for_status resp = Ret tt ->
  response_json resp = Ret data ->
  market_entry data = Ret path ->
  getitem_str path "isOpen" = Ret mkt_open_today ->
  truthy mkt_open_today = true ->
  match mkt_session with
  | Some f => check_enum_value f Markets_Session
  | None => Ret "regularMarket"
  end = Ret name ->
  session_time path name "start" = Ret otime ->
  session_time path name "end" = Ret ctime ->
  fromisoformat otime = Ret open_time ->
  fromisoformat ctime = Ret close_time ->
  run (is_market_open mkt_session (Ret resp)) answers o
  = (logger "Current time: {current_time} Close time: {close_time}"
            (mk_oauth (session_token o) (token_metadata o) (redis o)
                      (S (ticks o)) (log o)),
     Returns (Market.mk (Some ((open_time <? clock (ticks o))%Z
                               && (clock (ticks o) <? close_time)%Z))
                        (Some open_time) (Some close_time)),
     []).
Proof.
  intros Hst Hjson Hpath Hopen Htruthy Hname Hstart Hend Hotime Hctime.
  rewrite (run_is_market_open_ok _ _ data) by assumption.
  unfold Client.check_mkt_hours.
  unfold run, Auth.bind, Auth.lift, Auth.now, Auth.update, Auth.ret,
    Market.check_mkt_hours.
  rewrite Hpath. cbn [bind_susp]. rewrite Hopen. cbn [bind_susp].
  rewrite Htruthy. cbn [negb]. rewrite Hname. cbn [bind_susp].
  rewrite Hstart. cbn [bind_susp]. rewrite Hend. cbn [bind_susp].
  rewrite Hotime. cbn [bind_susp]. rewrite Hctime. cbn [bind_susp run_susp].
  destruct ((open_time <? clock (ticks o))%Z && (clock (ticks o) <? close_time)%Z);
    reflexivity.
Qed.

Lemma run_update_market_times (shared : mkt_status) (mkt_session : option field)
    (got : result response) (answers : list (result json)) (o : oauth) :
  run (update_market_times shared mkt_session got) answers o
  = let '(o1, r, rqs) := run (is_market_open mkt_session got) answers o in
    match r with
    | Returns updated_status =>
        (logger "Requested market status." o1,
         Returns (Market.mk (status shared) (openTime updated_status)
                            (closeTime updated_status)), rqs)
    | Raises _ => (logger "Failed market status check." o1, Returns shared, rqs)
    | Waits => (o1, Waits, rqs)
    end.
Proof.
  unfold Client.update_market_times. rewrite run_try_except, run_bind.
  destruct (run (is_market_open mkt_session got) answers o) as [[o1 r] rqs].
  destruct r as [u|e|]; cbn; rewrite ?List.app_nil_r; reflexivity.
Qed.

(** X24: a pass of [update_market_times] never raises, whatever the
    request did, and never changes the [status] entry of the shared
    dict: it either installs the two times [is_market_open] returned,
    or logs the failure and leaves the dict as it was. *)
Theorem update_market_times_keeps_status (shared : mkt_status)
    (mkt_session : option field) (got : result response)
    (answers : list (result json)) (o o' : oauth) (r : outcome mkt_status)
    (rqs : list request) :
  run (update_market_times shared mkt_session got) answers o = (o', r, rqs) ->
  (forall e : exn, r <> Raises e)
  /\ forall m : mkt_status,
      r = Returns m ->
      status m = status shared
      /\ ((exists (o1 : oauth) (updated_status : mkt_status),
              run (is_market_open mkt_session got) answers o
              = (o1, Returns updated_status, rqs)
              /\ openTime m = openTime updated_status
              /\ closeTime m = closeTime updated_status)
          \/ (m = shared
              /\ exists (o1 : oauth) (e : exn),
                  run (is_market_open mkt_session got) answers o = (o1, Raises e, rqs)
                  /\ o' = logger "Failed market status check." o1)).
Proof.
  rewrite run_update_market_times.
  destruct (run (is_market_open mkt_session got) answers o) as [[o1 r1] rqs1].
  destruct r1 as [u|e|]; intros H; inversion H; subst; clear H.
  - split; [discriminate|]. intros m Hm. inversion Hm; subst. split; [reflexivity|].
    left. exists o1, u. auto.
  - split; [discriminate|]. intros m Hm. inversion Hm; subst. split; [reflexivity|].
    right. split; [reflexivity|]. exists o1, e. auto.
  - split; [discriminate|]. discriminate.
Qed.

End MarketHoursRequest.

Section MarketHoursExamples.

Import Json Datetime Market Auth Validation Client.
Local Open Scope string_scope.
Local Open Scope Z_scope.

(** A response as far as the client looks at it: the status code and
    the body. *)
Definition http_response : Type := (Z * text)%type.

(** [raise_for_status] raises on every status that is not a success. *)
Definition status_check (r : http_response) : result unit :=
  if (200 <=? fst r) && (fst r <=? 299) then Ret tt
  else Raise (OtherError "HTTPStatusError").

Definition body_json (r : http_response) : result json := loads (snd r).

(** A reader of ISO strings that knows the two times of the regular
    session of 2024-10-28 in New York. *)
Definition iso_utc (x : json) : result datetime :=
  match x with
  | JStr s =>
      if String.eqb s "2024-10-28T09:30:00-04:00" then Ret (utc 13 30)
      else if String.eqb s "2024-10-28T16:00:00-04:00" then Ret (utc 20 0)
      else Raise ValueError
  | _ => Raise TypeError
  end.

Definition closed_entry : json :=
  JObj [("date", JStr "2024-10-27"); ("marketType", JStr "EQUITY");
        ("isOpen", JBool false)].

Definition closed_reply : http_response :=
  (200, Document (JObj [("equity", JObj [("equity", closed_entry)])])).

Definition open_entry : json :=
  JObj [("date", JStr "2024-10-28"); ("marketType", JStr "EQUITY");
        ("isOpen", JBool true);
        ("sessionHours",
         JObj [("regularMarket",
                JArr [JObj [("start", JStr "2024-10-28T09:30:00-04:00");
                            ("end", JStr "2024-10-28T16:00:00-04:00")]])])].

Definition open_reply : http_response :=
  (200, Document (JObj [("equity", JObj [("EQ", open_entry)])])).

Definition unavailable : http_response := (503, Garbage "Service Unavailable").

(** A clock that stands at 15:00 UTC of that day. *)
Definition session_clock (n : nat) : datetime := utc 15 0.

Lemma get_request_outcomes_witness :
  run (Client._get_request wall_clock expires_at_passed unix_seconds of_unix_seconds
                           status_check (Ret unavailable)) [] started
  = (logger "HTTP Error" started, Returns None, []).
Proof.
  exact (proj1 (proj2 (get_request_outcomes wall_clock expires_at_passed unix_seconds
                         of_unix_seconds http_response status_check
                         (Ret unavailable) [] started))
           unavailable (OtherError "HTTPStatusError") eq_refl eq_refl).
Defined.

Lemma is_market_open_no_response_witness :
  is_InvalidTokenError (OtherError "InvalidTokenError") = true
  /\ exists o1 : oauth,
      run (Client.is_market_open wall_clock expires_at_passed unix_seconds
             of_unix_seconds status_check body_json iso_utc None
             (Raise (OtherError "InvalidTokenError")))
          [Ret (token_from_provider "access-1")] started
      = (o1, Raises AttributeError, [Refresh (JStr "refresh-0")]).
Proof.
  split; [reflexivity|]. eexists.
  rewrite (proj2 (is_market_open_no_response wall_clock expires_at_passed
                    unix_seconds of_unix_seconds http_response status_check
                    body_json iso_utc None
                    [Ret (token_from_provider "access-1")] started)
             (OtherError "InvalidTokenError") eq_refl).
  vm_compute. reflexivity.
Defined.

Lemma is_market_open_closed_day_witness :
  truthy (JBool false) = false
  /\ check_enum_value (Str "lunch") Markets_Session = Raise ValueError
  /\ run (Client.is_market_open wall_clock expires_at_passed unix_seconds
            of_unix_seconds status_check body_json iso_utc (Some (Str "lunch"))
            (Ret closed_reply)) [] started
     = (started, Returns (Market.mk None None None), []).
Proof.
  split; [reflexivity|]. split; [reflexivity|].
  exact (proj1 (is_market_open_closed_day wall_clock expires_at_passed unix_seconds
                  of_unix_seconds http_response status_check body_json iso_utc
                  (Some (Str "lunch")) closed_reply
                  (JObj [("equity", JObj [("equity", closed_entry)])])
                  closed_entry (JBool false) [] started
                  eq_refl eq_refl eq_refl eq_refl eq_refl)).
Defined.

Lemma is_market_open_open_day_witness :
  session_time open_entry "regularMarket" "start"
  = Ret (JStr "2024-10-28T09:30:00-04:00")
  /\ exists o1 : oauth,
      run (Client.is_market_open session_clock expires_at_passed unix_seconds
             of_unix_seconds status_check body_json iso_utc None
             (Ret open_reply)) [] started
      = (o1, Returns (Market.mk (Some true) (Some (utc 13 30)) (Some (utc 20 0))), []).
Proof.
  split; [reflexivity|]. eexists.
  exact (is_market_open_open_day session_clock expires_at_passed unix_seconds
           of_unix_seconds http_response status_check body_json iso_utc
           None open_reply
           (JObj [("equity", JObj [("EQ", open_entry)])])
           open_entry (JBool true)
           (JStr "2024-10-28T09:30:00-04:00") (JStr "2024-10-28T16:00:00-04:00")
           "regularMarket" (utc 13 30) (utc 20 0) [] started
           eq_refl eq_refl eq_refl eq_refl eq_refl eq_refl eq_refl eq_refl
           eq_refl eq_refl).
Defined.

Lemma update_market_times_keeps_status_witness :
  run (Client.update_market_times wall_clock expires_at_passed unix_seconds
         of_unix_seconds status_check body_json iso_utc session_window None
         (Ret unavailable)) [] started
  = (logger "Failed market status check." (logger "HTTP Error" started),
     Returns session_window, [])
  /\ forall e : exn, Returns session_window <> Raises e.
Proof.
  assert (H : run (Client.update_market_times wall_clock expires_at_passed
                     unix_seconds of_unix_seconds status_check body_json iso_utc
                     session_window None (Ret unavailable)) [] started
              = (logger "Failed market status check." (logger "HTTP Error" started),
                 Returns session_window, [])) by reflexivity.
  split; [exact H|].
  exact (proj1 (update_market_times_keeps_status wall_clock expires_at_passed
                  unix_seconds of_unix_seconds http_response status_check
                  body_json iso_utc session_window None (Ret unavailable) []
                  started _ _ _ H)).
Defined.

End MarketHoursExamples.
